(** * Flexible Assembly System simulator: Warehouse, AGV and AssemblyStation

  A shallow embedding of [Warehouse.cpp], [AGV.h]/[AGV.cpp] and
  [AssemblyStation.h]/[AssemblyStation.cpp], and the properties of the
  system specification that concern them.

  Conventions of the embedding.
  - A C++ [int] is a [Z]; every arithmetic operation of the source is
    written with its 32-bit two's-complement wrap-around ([int_add],
    [int_sub]).
  - A [std::map<std::string, T>] is a [gmap string T]; a range-for over
    it visits the entries in ascending key order ([map_items]).
  - Every method that takes a lock is one atomic function on the state
    it guards; threads, sleeps and condition variables are not modelled. *)

From stdpp Require Import base option list gmap strings sorting fin_maps.
From Stdlib Require Import ZArith Lia.

Open Scope Z_scope.

(** * Part I: the model *)

(** ** Machine integers *)

Module Int.

Definition int_min : Z := - 2 ^ 31.
Definition int_max : Z := 2 ^ 31 - 1.

(** Reduction of a mathematical integer to the value an [int] holds. *)
Definition wrap (z : Z) : Z := (z + 2 ^ 31) `mod` 2 ^ 32 - 2 ^ 31.

Definition in_range (z : Z) : Prop := int_min <= z <= int_max.

Definition int_add (a b : Z) : Z := wrap (a + b).
Definition int_sub (a b : Z) : Z := wrap (a - b).
Definition int_mul (a b : Z) : Z := wrap (a * b).

#[global] Instance in_range_dec z : Decision (in_range z).
Proof. unfold in_range. apply _. Defined.

End Int.

Import Int.

(** ** Iteration over a [std::map] *)

Definition key_le {V : Type} (p q : string * V) : Prop := String.le p.1 q.1.

#[global] Instance key_le_dec {V : Type} : RelDecision (@key_le V).
Proof. intros p q. unfold key_le. apply _. Defined.

(** The entries of a map in the order a range-for visits them: ascending
    keys, compared as [std::string] compares (character by character, a
    proper prefix first). *)
Definition map_items {V : Type} (m : gmap string V) : list (string * V) :=
  merge_sort key_le (map_to_list m).

(** ** Warehouse (Warehouse.cpp) *)

(** Modelled from the spec: [Warehouse.h] is not among the sources. The two
    members are the ones [Warehouse.cpp] uses, with the types the data
    model gives them: component id to available quantity, finished-product
    id to produced count. *)
Record Warehouse := mkWarehouse {
  components : gmap string Z;
  finished_products : gmap string Z
}.

Module WarehouseOps.

(** [Warehouse::Warehouse()] *)
Definition Warehouse_new : Warehouse :=
  {| components := ∅; finished_products := ∅ |}.

(** The availability loop of [has_components] and [reserve_components]:
    the first entry that is missing or short makes the method return
    false. *)
Fixpoint all_available (comps : gmap string Z) (reqs : list (string * Z)) : bool :=
  match reqs with
  | [] => true
  | req :: rest =>
      match comps !! req.1 with
      | None => false
      | Some have => if have <? req.2 then false else all_available comps rest
      end
  end.

(** [bool Warehouse::has_components(required)]; the method is not [const],
    so it returns the inventory it leaves behind. *)
Definition has_components (w : Warehouse) (required : gmap string Z)
  : bool * Warehouse :=
  (all_available (components w) (map_items required), w).

(** [components[req.first] -= req.second;] ([operator[]] creates a
    missing entry with value 0). *)
Definition deduct (comps : gmap string Z) (req : string * Z) : gmap string Z :=
  <[req.1 := int_sub (default 0 (comps !! req.1)) req.2]> comps.

(** [bool Warehouse::reserve_components(required)] *)
Definition reserve_components (w : Warehouse) (required : gmap string Z)
  : bool * Warehouse :=
  if all_available (components w) (map_items required) then
    (true, {| components := foldl deduct (components w) (map_items required);
              finished_products := finished_products w |})
  else (false, w).

(** [void Warehouse::add_component(component_id, quantity)] *)
Definition add_component (w : Warehouse) (component_id : string) (quantity : Z)
  : Warehouse :=
  {| components :=
       <[component_id := int_add (default 0 (components w !! component_id)) quantity]>
         (components w);
     finished_products := finished_products w |}.

(** [int Warehouse::get_component_quantity(component_id) const] *)
Definition get_component_quantity (w : Warehouse) (component_id : string) : Z :=
  match components w !! component_id with
  | Some q => q
  | None => 0
  end.

(** [void Warehouse::add_finished_product(product_id)] *)
Definition add_finished_product (w : Warehouse) (product_id : string) : Warehouse :=
  {| components := components w;
     finished_products :=
       <[product_id := int_add (default 0 (finished_products w !! product_id)) 1]>
         (finished_products w) |}.

(** [int Warehouse::get_finished_product_count(product_id) const] *)
Definition get_finished_product_count (w : Warehouse) (product_id : string) : Z :=
  match finished_products w !! product_id with
  | Some q => q
  | None => 0
  end.

(** A call of one of the mutating methods, for sequences of operations. *)
Inductive WarehouseOp :=
  | OpReserve (required : gmap string Z)
  | OpAddComponent (component_id : string) (quantity : Z)
  | OpAddFinishedProduct (product_id : string).

Definition apply_op (w : Warehouse) (op : WarehouseOp) : Warehouse :=
  match op with
  | OpReserve required => (reserve_components w required).2
  | OpAddComponent component_id quantity => add_component w component_id quantity
  | OpAddFinishedProduct product_id => add_finished_product w product_id
  end.

(** The inventories after each operation of a sequence, in order. *)
Fixpoint states_after (w : Warehouse) (ops : list WarehouseOp) : list Warehouse :=
  match ops with
  | [] => []
  | op :: rest => apply_op w op :: states_after (apply_op w op) rest
  end.

(** No component quantity and no finished-product count is negative. *)
Definition non_negative (w : Warehouse) : Prop :=
  map_Forall (λ _ q, 0 <= q) (components w) ∧
  map_Forall (λ _ q, 0 <= q) (finished_products w).

#[global] Instance non_negative_dec w : Decision (non_negative w).
Proof. unfold non_negative. apply _. Defined.

(** The operation adds no negative quantity and none of its [int]
    results leaves the range of [int] on the inventory [w]. *)
Definition op_in_range (w : Warehouse) (op : WarehouseOp) : Prop :=
  match op with
  | OpReserve required =>
      map_Forall (λ k q, get_component_quantity w k - q <= int_max) required
  | OpAddComponent component_id quantity =>
      0 <= quantity ∧ get_component_quantity w component_id + quantity <= int_max
  | OpAddFinishedProduct product_id =>
      get_finished_product_count w product_id + 1 <= int_max
  end.

#[global] Instance op_in_range_dec w op : Decision (op_in_range w op).
Proof. destruct op; simpl; apply _. Defined.

Fixpoint ops_in_range (w : Warehouse) (ops : list WarehouseOp) : Prop :=
  match ops with
  | [] => True
  | op :: rest => op_in_range w op ∧ ops_in_range (apply_op w op) rest
  end.

#[global] Instance ops_in_range_dec w ops : Decision (ops_in_range w ops).
Proof. revert w. induction ops; simpl; intros; apply _. Defined.

End WarehouseOps.

Import WarehouseOps.

(** ** AGV (AGV.h, AGV.cpp) *)

Inductive AGVState :=
  | IDLE
  | TO_WAREHOUSE
  | PICKING
  | TO_STATION
  | DROPPING
  | RETURNING.

#[global] Instance AGVState_eq_dec : EqDecision AGVState.
Proof. solve_decision. Defined.

Record AGVTask := mkAGVTask {
  component_id : string;
  quantity : Z;
  destination : string;
  is_complete : bool
}.

#[global] Instance AGVTask_eq_dec : EqDecision AGVTask.
Proof. solve_decision. Defined.

Record AGV := mkAGV {
  agv_id : Z;
  state : AGVState;
  current_task : AGVTask;
  agv_running : bool;
  travel_time_warehouse_minutes : Z;
  travel_time_station_minutes : Z;
  picking_time_minutes : Z;
  dropping_time_minutes : Z;
  total_operations : Z;
  busy_time_minutes : Z
}.

#[global] Instance AGV_eq_dec : EqDecision AGV.
Proof. solve_decision. Defined.

Module AGVOps.

(** [AGVTask::AGVTask()]: the empty task. *)
Definition AGVTask_new : AGVTask :=
  {| component_id := ""; quantity := 0; destination := ""; is_complete := false |}.

(** [AGV::AGV(int id)] *)
Definition AGV_new (id : Z) : AGV :=
  {| agv_id := id;
     state := IDLE;
     current_task := AGVTask_new;
     agv_running := false;
     travel_time_warehouse_minutes := 2;
     travel_time_station_minutes := 3;
     picking_time_minutes := 1;
     dropping_time_minutes := 1;
     total_operations := 0;
     busy_time_minutes := 0 |}.

Definition set_state (s : AGVState) (a : AGV) : AGV :=
  mkAGV (agv_id a) s (current_task a) (agv_running a)
        (travel_time_warehouse_minutes a) (travel_time_station_minutes a)
        (picking_time_minutes a) (dropping_time_minutes a)
        (total_operations a) (busy_time_minutes a).

Definition set_current_task (t : AGVTask) (a : AGV) : AGV :=
  mkAGV (agv_id a) (state a) t (agv_running a)
        (travel_time_warehouse_minutes a) (travel_time_station_minutes a)
        (picking_time_minutes a) (dropping_time_minutes a)
        (total_operations a) (busy_time_minutes a).

Definition set_running (b : bool) (a : AGV) : AGV :=
  mkAGV (agv_id a) (state a) (current_task a) b
        (travel_time_warehouse_minutes a) (travel_time_station_minutes a)
        (picking_time_minutes a) (dropping_time_minutes a)
        (total_operations a) (busy_time_minutes a).

Definition set_total_operations (n : Z) (a : AGV) : AGV :=
  mkAGV (agv_id a) (state a) (current_task a) (agv_running a)
        (travel_time_warehouse_minutes a) (travel_time_station_minutes a)
        (picking_time_minutes a) (dropping_time_minutes a)
        n (busy_time_minutes a).

Definition set_busy_time_minutes (n : Z) (a : AGV) : AGV :=
  mkAGV (agv_id a) (state a) (current_task a) (agv_running a)
        (travel_time_warehouse_minutes a) (travel_time_station_minutes a)
        (picking_time_minutes a) (dropping_time_minutes a)
        (total_operations a) n.

(** [current_task.component_id.empty()] *)
Definition task_empty (t : AGVTask) : bool := bool_decide (component_id t = "").

(** [bool AGV::is_idle() const] *)
Definition is_idle (a : AGV) : bool :=
  bool_decide (state a = IDLE) && task_empty (current_task a).

(** [AGVState AGV::get_state() const] *)
Definition get_state (a : AGV) : AGVState := state a.

(** [AGVTask AGV::get_current_task() const] *)
Definition get_current_task (a : AGV) : AGVTask := current_task a.

(** [void AGV::assign_task(component_id, quantity, destination)]: the four
    fields of [current_task] are written one by one under the guard. *)
Definition assign_task (a : AGV) (cid : string) (qty : Z) (dest : string) : AGV :=
  if bool_decide (state a = IDLE) && task_empty (current_task a) then
    let t1 := mkAGVTask cid (quantity (current_task a))
                (destination (current_task a)) (is_complete (current_task a)) in
    let t2 := mkAGVTask (component_id t1) qty (destination t1) (is_complete t1) in
    let t3 := mkAGVTask (component_id t2) (quantity t2) dest (is_complete t2) in
    let t4 := mkAGVTask (component_id t3) (quantity t3) (destination t3) false in
    set_current_task t4 a
  else a.

(** [void AGV::stop()] *)
Definition stop (a : AGV) : AGV := set_running false a.

(** The thread body runs in a state monad over the AGV that also logs,
    in order, every state [transition_to] enters. *)
Definition Act (A : Type) : Type := AGV → A * AGV * list AGVState.

#[global] Instance Act_ret : MRet Act := λ A x a, (x, a, []).

#[global] Instance Act_bind : MBind Act := λ A B f m a,
  let '(x, a1, log1) := m a in
  let '(y, a2, log2) := f x a1 in
  (y, a2, log1 ++ log2).

Definition get : Act AGV := λ a, (a, a, []).
Definition modify (f : AGV → AGV) : Act unit := λ a, (tt, f a, []).

(** [void AGV::transition_to(AGVState new_state)] *)
Definition transition_to (new_state : AGVState) : Act unit :=
  λ a, (tt, set_state new_state a, [new_state]).

(** [std::this_thread::sleep_for(std::chrono::milliseconds(ms))]: real time
    is not modelled. *)
Definition sleep_for (ms : Z) : Act unit := mret tt.

(** The part of the loop body of [AGV::run] after the wake-up tests:
    "Execute task" to "Reset task". *)
Definition execute_task : Act unit :=
  transition_to TO_WAREHOUSE ;;
  a ← get; sleep_for (int_mul (travel_time_warehouse_minutes a) 100) ;;
  transition_to PICKING ;;
  a ← get; sleep_for (int_mul (picking_time_minutes a) 100) ;;
  transition_to TO_STATION ;;
  a ← get; sleep_for (int_mul (travel_time_station_minutes a) 100) ;;
  transition_to DROPPING ;;
  a ← get; sleep_for (int_mul (dropping_time_minutes a) 100) ;;
  modify (λ a, set_busy_time_minutes
                 (int_add (busy_time_minutes a)
                    (int_add (int_add (int_add (travel_time_warehouse_minutes a)
                                               (picking_time_minutes a))
                                      (travel_time_station_minutes a))
                             (dropping_time_minutes a))) a) ;;
  modify (λ a, set_total_operations (int_add (total_operations a) 1) a) ;;
  modify (set_current_task AGVTask_new) ;;
  transition_to IDLE.

(** How one pass of the [while (running)] loop of [AGV::run] ends. *)
Inductive LoopOutcome :=
  | Stopped      (* [if (!running) break;] *)
  | Waiting      (* no task: the thread stays in [task_cv.wait] *)
  | Completed.   (* a task was executed *)

(** One pass of the loop of [AGV::run]. *)
Definition run_iteration : Act LoopOutcome :=
  a ← get;
  if negb (agv_running a) then mret Stopped
  else if task_empty (current_task a) then mret Waiting
  else execute_task ;; mret Completed.

(** What happens to one AGV: calls made by other threads, and passes of
    its own loop.  A call of [assign_task] that arrives while a task is
    being executed finds a state other than IDLE and does nothing, so the
    passes are taken as atomic. *)
Inductive AGVEvent :=
  | EvAssign (cid : string) (qty : Z) (dest : string)
  | EvStart
  | EvStop
  | EvLoop.

Definition agv_event (a : AGV) (ev : AGVEvent) : AGV * list AGVState :=
  match ev with
  | EvAssign cid qty dest => (assign_task a cid qty dest, [])
  | EvStart => (set_running true a, [])
  | EvStop => (stop a, [])
  | EvLoop => let '(_, a', log) := run_iteration a in (a', log)
  end.

(** The AGV after a sequence of events and the states it entered. *)
Fixpoint agv_history (a : AGV) (evs : list AGVEvent) : AGV * list AGVState :=
  match evs with
  | [] => (a, [])
  | ev :: rest =>
      let '(a1, log1) := agv_event a ev in
      let '(a2, log2) := agv_history a1 rest in
      (a2, log1 ++ log2)
  end.

(** The states entered during one executed task. *)
Definition task_cycle : list AGVState :=
  [TO_WAREHOUSE; PICKING; TO_STATION; DROPPING; IDLE].

End AGVOps.

Import AGVOps.

(** ** Orders and products (Order.h, Product.h) *)

Record Order := mkOrder {
  release_hour : Z;
  release_minute : Z;
  release_time_minutes : Z;
  product_id : string;
  priority : Z;
  due_date_minutes : Z;
  completion_time_minutes : Z;
  is_completed : bool
}.

(** [Order::Order()] *)
Definition Order_new : Order :=
  {| release_hour := 0; release_minute := 0; release_time_minutes := 0;
     product_id := ""; priority := 0; due_date_minutes := -1;
     completion_time_minutes := -1; is_completed := false |}.

(** Modelled from the spec: [Product.h] is not among the sources. A product
    has its bill of materials (component id to required quantity) and its
    base assembly duration; these are the two members [AssemblyStation.cpp]
    reads. *)
Record Product := mkProduct {
  bom : gmap string Z;
  base_assembly_time_minutes : Z
}.

(** ** AssemblyStation (AssemblyStation.h, AssemblyStation.cpp) *)

(** The station with the objects it points to: [warehouse] is the pointee
    (dereferenced without test by the source), [agv_fleet] and [products]
    are [None] for a null pointer. *)
Record AssemblyStation := mkAssemblyStation {
  warehouse : Warehouse;
  agv_fleet : option (list AGV);
  products : option (gmap string Product);
  order_queue : list Order;
  running : bool;
  current_sim_time_minutes : Z;
  setup_time_minutes : Z;
  total_busy_time_minutes : Z;
  orders_completed : Z
}.

Module StationOps.

(** [AssemblyStation::AssemblyStation(Warehouse* wh, std::vector<AGV*>* fleet)] *)
Definition AssemblyStation_new (wh : Warehouse) (fleet : option (list AGV))
  : AssemblyStation :=
  {| warehouse := wh;
     agv_fleet := fleet;
     products := None;
     order_queue := [];
     running := false;
     current_sim_time_minutes := 0;
     setup_time_minutes := 5;
     total_busy_time_minutes := 0;
     orders_completed := 0 |}.

Definition set_warehouse (wh : Warehouse) (st : AssemblyStation) : AssemblyStation :=
  mkAssemblyStation wh (agv_fleet st) (products st) (order_queue st) (running st)
    (current_sim_time_minutes st) (setup_time_minutes st)
    (total_busy_time_minutes st) (orders_completed st).

Definition set_agv_fleet (fleet : option (list AGV)) (st : AssemblyStation)
  : AssemblyStation :=
  mkAssemblyStation (warehouse st) fleet (products st) (order_queue st) (running st)
    (current_sim_time_minutes st) (setup_time_minutes st)
    (total_busy_time_minutes st) (orders_completed st).

(** [void set_products(std::map<std::string, Product>* prods)] *)
Definition set_products (prods : option (gmap string Product)) (st : AssemblyStation)
  : AssemblyStation :=
  mkAssemblyStation (warehouse st) (agv_fleet st) prods (order_queue st) (running st)
    (current_sim_time_minutes st) (setup_time_minutes st)
    (total_busy_time_minutes st) (orders_completed st).

Definition set_order_queue (q : list Order) (st : AssemblyStation) : AssemblyStation :=
  mkAssemblyStation (warehouse st) (agv_fleet st) (products st) q (running st)
    (current_sim_time_minutes st) (setup_time_minutes st)
    (total_busy_time_minutes st) (orders_completed st).

(** [void AssemblyStation::set_simulation_time(int minutes)] *)
Definition set_simulation_time (minutes : Z) (st : AssemblyStation) : AssemblyStation :=
  mkAssemblyStation (warehouse st) (agv_fleet st) (products st) (order_queue st)
    (running st) minutes (setup_time_minutes st)
    (total_busy_time_minutes st) (orders_completed st).

Definition set_total_busy_time_minutes (n : Z) (st : AssemblyStation) : AssemblyStation :=
  mkAssemblyStation (warehouse st) (agv_fleet st) (products st) (order_queue st)
    (running st) (current_sim_time_minutes st) (setup_time_minutes st)
    n (orders_completed st).

Definition set_orders_completed (n : Z) (st : AssemblyStation) : AssemblyStation :=
  mkAssemblyStation (warehouse st) (agv_fleet st) (products st) (order_queue st)
    (running st) (current_sim_time_minutes st) (setup_time_minutes st)
    (total_busy_time_minutes st) n.

(** [void AssemblyStation::add_order(const Order& order)] *)
Definition add_order (order : Order) (st : AssemblyStation) : AssemblyStation :=
  set_order_queue (order_queue st ++ [order]) st.

(** [int AssemblyStation::calculate_operation_time(product_id)] *)
Definition calculate_operation_time (st : AssemblyStation) (pid : string) : Z :=
  match products st with
  | None => int_add 30 (setup_time_minutes st)
  | Some prods =>
      match prods !! pid with
      | None => int_add 30 (setup_time_minutes st)
      | Some product =>
          int_add (base_assembly_time_minutes product) (setup_time_minutes st)
      end
  end.

(** One dispatch of [request_components], as a record of what the loops
    did: where the scan for an idle AGV started, which AGV of the fleet
    (by index) was given the task, and the task's payload. *)
Record Dispatch := mkDispatch {
  scan_start : nat;
  chosen : option nat;
  dispatched_component : string;
  dispatched_quantity : Z
}.

(** The inner loop [for (size_t i = 0; i < agv_fleet->size(); i++)]
    from iteration [i] on, with [todo] iterations left: the first [i] whose
    AGV [(agv_index + i) % size] is idle.  Indices are natural numbers
    (the fleet is far smaller than the range of [int] and [size_t]). *)
Fixpoint scan_idle (fleet : list AGV) (agv_index i todo : nat) : option nat :=
  match todo with
  | O => None
  | S todo' =>
      match fleet !! ((agv_index + i) `mod` length fleet)%nat with
      | Some agv =>
          if is_idle agv then Some i
          else scan_idle fleet agv_index (S i) todo'
      | None => None
      end
  end.

(** The body of the outer loop for one entry of the bill of materials:
    the fleet and [agv_index] it leaves, and the record of the dispatch. *)
Definition dispatch_component (fleet : list AGV) (agv_index : nat)
    (component : string * Z) : list AGV * nat * Dispatch :=
  match scan_idle fleet agv_index 0 (length fleet) with
  | Some i =>
      let j := ((agv_index + i) `mod` length fleet)%nat in
      (alter (λ agv, assign_task agv component.1 component.2 "ASSEMBLY_STATION") j fleet,
       ((agv_index + i + 1) `mod` length fleet)%nat,
       mkDispatch agv_index (Some j) component.1 component.2)
  | None =>
      (fleet, agv_index, mkDispatch agv_index None component.1 component.2)
  end.

(** The outer loop [for (const auto& component : product.bom)]. *)
Fixpoint dispatch_all (fleet : list AGV) (agv_index : nat)
    (items : list (string * Z)) : list AGV * list Dispatch :=
  match items with
  | [] => (fleet, [])
  | component :: rest =>
      let '(fleet1, agv_index1, d) := dispatch_component fleet agv_index component in
      let '(fleet2, ds) := dispatch_all fleet1 agv_index1 rest in
      (fleet2, d :: ds)
  end.

(** [bool AssemblyStation::request_components(product_id)], returning also
    the record of the dispatches it made. *)
Definition request_components_log (st : AssemblyStation) (pid : string)
  : bool * AssemblyStation * list Dispatch :=
  match products st with
  | None => (false, st, [])
  | Some prods =>
      match prods !! pid with
      | None => (false, st, [])
      | Some product =>
          let '(reserved, wh1) := reserve_components (warehouse st) (bom product) in
          if negb reserved then (false, set_warehouse wh1 st, [])
          else
            let st1 := set_warehouse wh1 st in
            match agv_fleet st1 with
            | None | Some [] =>
                (* "Rollback - simplified": a second reservation *)
                let '(_, wh2) := reserve_components (warehouse st1) (bom product) in
                (false, set_warehouse wh2 st1, [])
            | Some fleet =>
                (* int agv_index = 0; *)
                let '(fleet', ds) := dispatch_all fleet 0 (map_items (bom product)) in
                (* wait_for_components(product_id): a sleep *)
                (true, set_agv_fleet (Some fleet') st1, ds)
            end
      end
  end.

(** [bool AssemblyStation::request_components(product_id)] *)
Definition request_components (st : AssemblyStation) (pid : string)
  : bool * AssemblyStation :=
  (request_components_log st pid).1.

Definition set_completed (t : Z) (o : Order) : Order :=
  mkOrder (release_hour o) (release_minute o) (release_time_minutes o)
    (product_id o) (priority o) (due_date_minutes o) t true.

(** The body of the loop of [process_orders] after the order was popped:
    the local copy [order] as the body leaves it, and the station. *)
Definition process_order (st : AssemblyStation) (order : Order)
  : Order * AssemblyStation :=
  let '(ok, st1) := request_components st (product_id order) in
  if ok then
    let operation_time := calculate_operation_time st1 (product_id order) in
    let st2 := set_total_busy_time_minutes
                 (int_add (total_busy_time_minutes st1) operation_time) st1 in
    let order' := set_completed
                    (int_add (current_sim_time_minutes st2) operation_time) order in
    let st3 := set_orders_completed (int_add (orders_completed st2) 1) st2 in
    (order', set_warehouse (add_finished_product (warehouse st3) (product_id order)) st3)
  else (order, st1).

(** One pass of the loop of [process_orders] on a non-empty queue;
    [None] when the queue is empty (the thread waits or leaves). *)
Definition process_next (st : AssemblyStation) : option (Order * AssemblyStation) :=
  match order_queue st with
  | [] => None
  | order :: rest => Some (process_order (set_order_queue rest st) order)
  end.

(** *** Round-robin dispatch, as the specification words it *)

(** [j] is the first idle AGV met when the fleet is scanned cyclically
    from index [start]. *)
Definition first_idle_from (fleet : list AGV) (start j : nat) : Prop :=
  ∃ i : nat,
    (i < length fleet)%nat ∧
    j = ((start + i) `mod` length fleet)%nat ∧
    (∃ a, fleet !! j = Some a ∧ is_idle a = true) ∧
    ∀ i' : nat, (i' < i)%nat →
      ∃ a', fleet !! ((start + i') `mod` length fleet)%nat = Some a'
            ∧ is_idle a' = false.

Definition none_idle (fleet : list AGV) : Prop :=
  ∀ a, a ∈ fleet → is_idle a = false.

(** [round_robin fleet start items ds fleet']: serving the components
    [items] in turn, each scan starting at [start] for the first and one
    past the AGV chosen last for the following ones, gives the dispatches
    [ds] and leaves the fleet [fleet'].  The chosen AGV receives the task
    (component id, quantity, destination "ASSEMBLY_STATION"); a component
    for which no AGV is idle is given to nobody. *)
Inductive round_robin :
  list AGV → nat → list (string * Z) → list Dispatch → list AGV → Prop :=
  | rr_done fleet start :
      round_robin fleet start [] [] fleet
  | rr_assign fleet start c q rest j a ds fleet' :
      first_idle_from fleet start j →
      fleet !! j = Some a →
      round_robin
        (<[j := set_current_task (mkAGVTask c q "ASSEMBLY_STATION" false) a]> fleet)
        ((j + 1) `mod` length fleet)%nat rest ds fleet' →
      round_robin fleet start ((c, q) :: rest)
        (mkDispatch start (Some j) c q :: ds) fleet'
  | rr_none fleet start c q rest ds fleet' :
      none_idle fleet →
      round_robin fleet start rest ds fleet' →
      round_robin fleet start ((c, q) :: rest)
        (mkDispatch start None c q :: ds) fleet'.

(** The scan of [next] starts one past the AGV chosen by [prev], in a
    fleet of [n] AGVs. *)
Definition starts_after (n : nat) (prev next : Dispatch) : Prop :=
  match chosen prev with
  | Some j => scan_start next = ((j + 1) `mod` n)%nat
  | None => scan_start next = scan_start prev
  end.

#[global] Instance starts_after_dec n prev next : Decision (starts_after n prev next).
Proof. unfold starts_after. destruct (chosen prev); apply _. Defined.

(** Every dispatch of the list but the first starts after its predecessor. *)
Fixpoint each_starts_after (n : nat) (ds : list Dispatch) : Prop :=
  match ds with
  | prev :: rest =>
      match rest with
      | next :: _ => starts_after n prev next ∧ each_starts_after n rest
      | [] => True
      end
  | [] => True
  end.

#[global] Instance each_starts_after_dec n ds : Decision (each_starts_after n ds).
Proof.
  induction ds as [|prev rest IH]; simpl; [apply _|].
  destruct rest; apply _.
Defined.

End StationOps.

Import StationOps.

(** ** Example configurations *)

Module Scenario.

(** Three started AGVs with the default durations. *)
Definition fleet3 : list AGV :=
  [set_running true (AGV_new 0); set_running true (AGV_new 1);
   set_running true (AGV_new 2)].

(** Five units each of components "A" and "B". *)
Definition stock : Warehouse :=
  add_component (add_component Warehouse_new "A" 5) "B" 5.

(** "P1" needs one "A" and takes 20 minutes, "P2" needs one "B" and takes 10. *)
Definition catalog : gmap string Product :=
  {[ "P1" := mkProduct {[ "A" := 1 ]} 20; "P2" := mkProduct {[ "B" := 1 ]} 10 ]}.

(** A fresh station (clock 0, setup time 5) on that warehouse, fleet and
    catalog. *)
Definition station0 : AssemblyStation :=
  set_products (Some catalog) (AssemblyStation_new stock (Some fleet3)).

(** An order for [pid] released at minute [t]. *)
Definition order_at (t : Z) (pid : string) : Order :=
  mkOrder 0 t t pid 0 (-1) (-1) false.

(** AGV number [i] of the station's fleet makes one pass of its loop. *)
Definition agv_loop_pass (i : nat) (st : AssemblyStation) : AssemblyStation :=
  set_agv_fleet (alter (λ a, (run_iteration a).1.2) i <$> agv_fleet st) st.

End Scenario.

(** ** Notions used to state further properties *)

Module Derived.

(** The sum [AGV::run] adds to [busy_time_minutes] when a task is done. *)
Definition cycle_duration (a : AGV) : Z :=
  int_add (int_add (int_add (travel_time_warehouse_minutes a)
                            (picking_time_minutes a))
                   (travel_time_station_minutes a))
          (dropping_time_minutes a).

(** The members of an AGV that are set by the constructor only. *)
Definition same_configuration (a a' : AGV) : Prop :=
  agv_id a' = agv_id a
  ∧ travel_time_warehouse_minutes a' = travel_time_warehouse_minutes a
  ∧ travel_time_station_minutes a' = travel_time_station_minutes a
  ∧ picking_time_minutes a' = picking_time_minutes a
  ∧ dropping_time_minutes a' = dropping_time_minutes a.

(** How many AGVs of a fleet answer [is_idle()] with true. *)
Definition idle_count (fleet : list AGV) : nat :=
  length (filter (λ a, is_idle a = true) fleet).

Definition set_station_running (b : bool) (st : AssemblyStation) : AssemblyStation :=
  mkAssemblyStation (warehouse st) (agv_fleet st) (products st) (order_queue st) b
    (current_sim_time_minutes st) (setup_time_minutes st)
    (total_busy_time_minutes st) (orders_completed st).

(** [void AssemblyStation::start()], without the thread it spawns. *)
Definition station_start (st : AssemblyStation) : AssemblyStation :=
  set_station_running true st.

(** [void AssemblyStation::stop()] *)
Definition station_stop (st : AssemblyStation) : AssemblyStation :=
  set_station_running false st.

(** [bool AssemblyStation::is_processing() const] *)
Definition is_processing (st : AssemblyStation) : bool :=
  negb (bool_decide (order_queue st = [])).

(** [int get_total_busy_time() const], [int get_orders_completed() const] *)
Definition get_total_busy_time (st : AssemblyStation) : Z := total_busy_time_minutes st.
Definition get_orders_completed (st : AssemblyStation) : Z := orders_completed st.

(** [void AssemblyStation::process_orders()] from the top of its loop, with
    no other thread adding orders or changing [running] meanwhile: at most
    [fuel] passes.  It leaves the loop when [running] is false, and stays
    in [order_cv.wait] when the queue is empty.  The result lists the
    local copies of the orders as their passes left them. *)
Fixpoint process_orders (fuel : nat) (st : AssemblyStation)
  : list Order * AssemblyStation :=
  match fuel with
  | O => ([], st)
  | S fuel' =>
      if negb (running st) then ([], st)
      else
        match process_next st with
        | None => ([], st)
        | Some (o, st1) =>
            let '(os, st2) := process_orders fuel' st1 in (o :: os, st2)
        end
  end.

(** Every component quantity is at most [INT_MAX]. *)
Definition within_int (w : Warehouse) : Prop :=
  map_Forall (λ _ v, v <= int_max) (components w).

#[global] Instance within_int_dec w : Decision (within_int w).
Proof. unfold within_int. apply _. Defined.

End Derived.

Import Derived.

(** * Part II: properties *)

(** ** Machine integers *)

Module IntFacts.

Lemma wrap_in_range z : in_range z → wrap z = z.
Proof.
  unfold in_range, int_min, int_max, wrap. intros Hz.
  rewrite Z.mod_small by lia. lia.
Qed.

Lemma wrap_range z : in_range (wrap z).
Proof.
  unfold in_range, int_min, int_max, wrap.
  pose proof (Z.mod_pos_bound (z + 2 ^ 31) (2 ^ 32)). lia.
Qed.

Lemma int_add_exact a b : in_range (a + b) → int_add a b = a + b.
Proof. apply wrap_in_range. Qed.

Lemma int_sub_exact a b : in_range (a - b) → int_sub a b = a - b.
Proof. apply wrap_in_range. Qed.

Lemma in_range_between z : 0 <= z → z <= int_max → in_range z.
Proof. unfold in_range, int_min. lia. Qed.

End IntFacts.

Import IntFacts.

(** ** Iteration over a map *)

Section MapItems.
Context {V : Type}.
Implicit Types m : gmap string V.

#[global] Instance key_le_total : Total (@key_le V).
Proof. intros p q. unfold key_le. apply (total String.le). Qed.

Lemma map_items_perm m : map_items m ≡ₚ map_to_list m.
Proof. apply merge_sort_Permutation. Qed.

Lemma elem_of_map_items m k v : (k, v) ∈ map_items m ↔ m !! k = Some v.
Proof. rewrite map_items_perm. apply elem_of_map_to_list. Qed.

Lemma NoDup_fst_map_items m : NoDup (map_items m).*1.
Proof. rewrite map_items_perm. apply NoDup_fst_map_to_list. Qed.

Lemma map_items_sorted m : Sorted key_le (map_items m).
Proof. apply (Sorted_merge_sort key_le). Qed.

(** The order is by key, not by insertion. *)
Example map_items_in_key_order :
  map_items (<["bolt" := 4]> (<["axle" := 1]> (<["nut" := 2]> (∅ : gmap string Z))))
  = [("axle", 1); ("bolt", 4); ("nut", 2)].
Proof. by vm_compute. Qed.

Lemma not_elem_of_fst_map_items m k : k ∉ (map_items m).*1 ↔ m !! k = None.
Proof.
  rewrite list_elem_of_fmap. split.
  - intros Hn. destruct (m !! k) as [v|] eqn:E; [|done].
    exfalso. apply Hn. exists (k, v). split; [done|]. by apply elem_of_map_items.
  - intros Hk [[k' v] [-> Hin]]. apply elem_of_map_items in Hin.
    simpl in *. congruence.
Qed.

End MapItems.

(** ** Warehouse *)

Module WarehouseFacts.

(** The availability loop accepts exactly the lists all of whose entries
    are present with a sufficient quantity. *)
Lemma all_available_true comps reqs :
  all_available comps reqs = true ↔
  ∀ k q, (k, q) ∈ reqs → ∃ have, comps !! k = Some have ∧ q <= have.
Proof.
  induction reqs as [|[k0 q0] rest IH]; simpl.
  - split; [|done]. intros _ k q Hin. by apply elem_of_nil in Hin.
  - destruct (comps !! k0) as [have|] eqn:Hk0.
    + destruct (Z.ltb_spec have q0) as [Hlt|Hge].
      * split; [done|]. intros H.
        destruct (H k0 q0) as (have' & Hl & Hq); [left|].
        rewrite Hk0 in Hl. injection Hl as <-. lia.
      * rewrite IH. split.
        -- intros H k q [Heq|Hin]%elem_of_cons; [|by apply H].
           injection Heq as -> ->. eauto.
        -- intros H k q Hin. apply H. by right.
    + split; [done|]. intros H.
      destruct (H k0 q0) as (have' & Hl & _); [left|]. congruence.
Qed.

Lemma foldl_deduct_notin reqs : ∀ comps k,
  k ∉ reqs.*1 → foldl deduct comps reqs !! k = comps !! k.
Proof.
  induction reqs as [|[k0 q0] rest IH]; intros comps k Hk; simpl; [done|].
  rewrite fmap_cons, not_elem_of_cons in Hk. destruct Hk as [Hne Hk].
  rewrite IH by done. unfold deduct. simpl. by rewrite lookup_insert_ne.
Qed.

Lemma foldl_deduct_in reqs : ∀ comps k q,
  NoDup reqs.*1 → (k, q) ∈ reqs →
  foldl deduct comps reqs !! k = Some (int_sub (default 0 (comps !! k)) q).
Proof.
  induction reqs as [|[k0 q0] rest IH]; intros comps k q Hnd Hin; simpl.
  - by apply elem_of_nil in Hin.
  - rewrite fmap_cons in Hnd. apply NoDup_cons in Hnd as [Hk0 Hnd].
    apply elem_of_cons in Hin as [Heq|Hin].
    + injection Heq as -> ->.
      rewrite foldl_deduct_notin by done.
      unfold deduct. simpl. by rewrite lookup_insert_eq.
    + assert (k ≠ k0) as Hne.
      { intros ->. apply Hk0. apply list_elem_of_fmap. by exists (k0, q). }
      rewrite (IH _ k q) by done. unfold deduct. simpl.
      by rewrite lookup_insert_ne.
Qed.

(** What a successful reservation leaves in the inventory, entry by entry. *)
Lemma reserve_components_lookup w required k :
  all_available (components w) (map_items required) = true →
  components (reserve_components w required).2 !! k =
    match required !! k with
    | Some q => Some (int_sub (default 0 (components w !! k)) q)
    | None => components w !! k
    end.
Proof.
  intros Hav. unfold reserve_components. rewrite Hav. simpl.
  destruct (required !! k) as [q|] eqn:Hk.
  - apply foldl_deduct_in; [apply NoDup_fst_map_items|by apply elem_of_map_items].
  - apply foldl_deduct_notin. by apply not_elem_of_fst_map_items.
Qed.

Lemma reserve_components_false w required :
  all_available (components w) (map_items required) = false →
  reserve_components w required = (false, w).
Proof. intros Hav. unfold reserve_components. by rewrite Hav. Qed.

Lemma reserve_components_finished w required :
  finished_products (reserve_components w required).2 = finished_products w.
Proof. unfold reserve_components. by destruct (all_available _ _). Qed.

Lemma available_in_map w required :
  all_available (components w) (map_items required) = true ↔
  ∀ k q, required !! k = Some q →
         ∃ have, components w !! k = Some have ∧ q <= have.
Proof.
  rewrite all_available_true. split; intros H k q Hk.
  - apply H. by apply elem_of_map_items.
  - apply H. by apply elem_of_map_items.
Qed.

(** C1: [reserve_components] is all-or-nothing.  Either it returns true,
    and then every requested component was present with at least the
    requested quantity and holds exactly that much less afterwards (the
    [int] subtraction [have - q], which is the mathematical difference
    whenever that is an [int]), every other component and every
    finished-product count being as before; or it returns false and the
    whole inventory is as before.  There is no third outcome, so no partial
    deduction. *)
Theorem reserve_components_all_or_nothing (w : Warehouse) (required : gmap string Z) :
  (∃ w', reserve_components w required = (true, w') ∧
     finished_products w' = finished_products w ∧
     (∀ k q, required !! k = Some q →
        ∃ have, components w !! k = Some have ∧ q <= have ∧
                components w' !! k = Some (int_sub have q) ∧
                (in_range (have - q) → components w' !! k = Some (have - q))) ∧
     (∀ k, required !! k = None → components w' !! k = components w !! k))
  ∨ reserve_components w required = (false, w).
Proof.
  destruct (all_available (components w) (map_items required)) eqn:Hav.
  - left. exists (reserve_components w required).2. split; [|split; [|split]].
    + unfold reserve_components. by rewrite Hav.
    + apply reserve_components_finished.
    + intros k q Hk.
      destruct (proj1 (available_in_map w required) Hav k q Hk) as (have & Hl & Hq).
      exists have. rewrite reserve_components_lookup, Hk, Hl by done. simpl.
      repeat split; try done.
      intros Hr. by rewrite int_sub_exact.
    + intros k Hk. by rewrite reserve_components_lookup, Hk.
  - right. by apply reserve_components_false.
Qed.

(** C9: [has_components] returns true exactly when every entry of the
    required map is present in the inventory with a quantity at least the
    requested one, and it returns the inventory it was given. *)
Theorem has_components_iff_available (w : Warehouse) (required : gmap string Z) :
  ((has_components w required).1 = true ↔
     ∀ k q, required !! k = Some q →
            ∃ have, components w !! k = Some have ∧ q <= have)
  ∧ components (has_components w required).2 = components w
  ∧ finished_products (has_components w required).2 = finished_products w.
Proof.
  split; [|done]. unfold has_components. simpl. apply available_in_map.
Qed.

Lemma get_component_quantity_lookup w k have :
  components w !! k = Some have → get_component_quantity w k = have.
Proof. unfold get_component_quantity. by intros ->. Qed.

Lemma non_negative_component w k :
  non_negative w → 0 <= get_component_quantity w k.
Proof.
  intros [Hc _]. unfold get_component_quantity.
  destruct (components w !! k) as [q|] eqn:Hk; [|done]. by apply (Hc k).
Qed.

Lemma non_negative_finished w k :
  non_negative w → 0 <= get_finished_product_count w k.
Proof.
  intros [_ Hf]. unfold get_finished_product_count.
  destruct (finished_products w !! k) as [q|] eqn:Hk; [|done]. by apply (Hf k).
Qed.

Lemma reserve_components_non_negative w required :
  non_negative w → op_in_range w (OpReserve required) →
  non_negative (reserve_components w required).2.
Proof.
  intros Hw Hr. simpl in Hr.
  destruct (all_available (components w) (map_items required)) eqn:Hav.
  - split.
    + intros k v Hv. rewrite reserve_components_lookup in Hv by done.
      destruct (required !! k) as [q|] eqn:Hk.
      * destruct (proj1 (available_in_map w required) Hav k q Hk) as (have & Hl & Hq).
        specialize (Hr k q Hk). simpl in Hr.
        rewrite (get_component_quantity_lookup _ _ _ Hl) in Hr.
        rewrite Hl in Hv. simpl in Hv. injection Hv as <-.
        rewrite int_sub_exact by (apply in_range_between; lia). lia.
      * by apply (proj1 Hw k).
    + rewrite reserve_components_finished. apply Hw.
  - by rewrite reserve_components_false.
Qed.

Lemma add_component_non_negative w cid qty :
  non_negative w → op_in_range w (OpAddComponent cid qty) →
  non_negative (add_component w cid qty).
Proof.
  intros Hw [Hq Hmax]. split; [|apply Hw].
  pose proof (non_negative_component w cid Hw) as Hold.
  intros k v. simpl. rewrite lookup_insert. destruct (decide (cid = k)) as [->|Hne].
  - intros [= <-]. unfold get_component_quantity in Hold, Hmax.
    destruct (components w !! k) as [q|]; simpl;
      (rewrite int_add_exact by (apply in_range_between; lia)); lia.
  - apply (proj1 Hw).
Qed.

Lemma add_finished_product_non_negative w pid :
  non_negative w → op_in_range w (OpAddFinishedProduct pid) →
  non_negative (add_finished_product w pid).
Proof.
  intros Hw Hmax. simpl in Hmax. split; [apply Hw|].
  pose proof (non_negative_finished w pid Hw) as Hold.
  intros k v. simpl. rewrite lookup_insert. destruct (decide (pid = k)) as [->|Hne].
  - intros [= <-]. unfold get_finished_product_count in Hold, Hmax.
    destruct (finished_products w !! k) as [q|]; simpl;
      (rewrite int_add_exact by (apply in_range_between; lia)); lia.
  - apply (proj2 Hw).
Qed.

Lemma apply_op_non_negative w op :
  non_negative w → op_in_range w op → non_negative (apply_op w op).
Proof.
  destruct op; simpl.
  - apply reserve_components_non_negative.
  - apply add_component_non_negative.
  - apply add_finished_product_non_negative.
Qed.

(** C2 as stated fails: [add_component] adds whatever quantity it is given,
    so on the empty warehouse, which is non-negative, the single call
    [add_component("c", -1)] leaves component "c" at -1. *)
Lemma add_component_negative_breaks_invariant :
  non_negative Warehouse_new ∧
  get_component_quantity (add_component Warehouse_new "c" (-1)) "c" = -1 ∧
  ¬ Forall non_negative (states_after Warehouse_new [OpAddComponent "c" (-1)]).
Proof.
  split; [|split].
  - split; intros k v Hk; simpl in Hk; by rewrite lookup_empty in Hk.
  - reflexivity.
  - intros H. apply Forall_cons in H as [[Hc _] _].
    specialize (Hc "c" (-1)). simpl in Hc.
    rewrite lookup_insert_eq in Hc. specialize (Hc eq_refl). lia.
Qed.

(** C2, amended: for every sequence of [reserve_components],
    [add_component] and [add_finished_product] calls on a non-negative
    warehouse in which no [add_component] is given a negative quantity and
    no addition or subtraction leaves the range of [int], the inventory is
    non-negative after each call. *)
Theorem warehouse_stays_non_negative (ops : list WarehouseOp) :
  ∀ w : Warehouse,
    non_negative w → ops_in_range w ops →
    Forall non_negative (states_after w ops).
Proof.
  induction ops as [|op rest IH]; intros w Hw Hops; simpl.
  - constructor.
  - destruct Hops as [Hop Hrest].
    pose proof (apply_op_non_negative w op Hw Hop) as Hw'.
    constructor; [done|]. by apply IH.
Qed.

(** The amended C2 on a run that uses all three operations, a failed
    reservation included. *)
Lemma warehouse_stays_non_negative_witness :
  let w := add_component Warehouse_new "bolt" 4 in
  let ops := [OpReserve {["bolt" := 3]}; OpReserve {["bolt" := 3]};
              OpAddComponent "nut" 2; OpAddFinishedProduct "P1";
              OpReserve {["bolt" := 1; "nut" := 2]}] in
  non_negative w ∧ ops_in_range w ops ∧ Forall non_negative (states_after w ops).
Proof.
  intros w ops.
  assert (non_negative w) as Hw
    by (apply (bool_decide_unpack _); vm_compute; exact I).
  assert (ops_in_range w ops) as Hops
    by (apply (bool_decide_unpack _); vm_compute; exact I).
  split; [exact Hw|]. split; [exact Hops|].
  exact (warehouse_stays_non_negative ops w Hw Hops).
Defined.

End WarehouseFacts.

(** ** AGV *)

Module AGVFacts.

Lemma is_idle_true a :
  is_idle a = true ↔ state a = IDLE ∧ component_id (current_task a) = "".
Proof.
  unfold is_idle, task_empty.
  rewrite andb_true_iff, !bool_decide_eq_true. done.
Qed.

(** One executed task, computed: the AGV it leaves and the states entered. *)
Lemma execute_task_unfold a :
  execute_task a =
    (tt,
     mkAGV (agv_id a) IDLE AGVTask_new (agv_running a)
       (travel_time_warehouse_minutes a) (travel_time_station_minutes a)
       (picking_time_minutes a) (dropping_time_minutes a)
       (int_add (total_operations a) 1)
       (int_add (busy_time_minutes a)
          (int_add (int_add (int_add (travel_time_warehouse_minutes a)
                                     (picking_time_minutes a))
                            (travel_time_station_minutes a))
                   (dropping_time_minutes a))),
     task_cycle).
Proof. reflexivity. Qed.

Lemma run_iteration_log a :
  (run_iteration a).2 = [] ∨
  (run_iteration a).2 = task_cycle ∧ (run_iteration a).1.1 = Completed.
Proof.
  unfold run_iteration, mbind, Act_bind, get.
  destruct (agv_running a); [|by left].
  destruct (task_empty (current_task a)); [by left|].
  right. split; reflexivity.
Qed.

Lemma agv_event_log a ev :
  (agv_event a ev).2 = [] ∨ (agv_event a ev).2 = task_cycle.
Proof.
  destruct ev; simpl; try by left.
  pose proof (run_iteration_log a) as H.
  destruct (run_iteration a) as [[o a'] log]. simpl in *. tauto.
Qed.

Lemma agv_history_cycles a evs :
  ∃ n : nat, (agv_history a evs).2 = mjoin (replicate n task_cycle).
Proof.
  revert a. induction evs as [|ev rest IH]; intros a; simpl.
  - by exists 0%nat.
  - pose proof (agv_event_log a ev) as Hev.
    destruct (agv_event a ev) as [a1 log1]. simpl in Hev.
    destruct (IH a1) as [n Hn].
    destruct (agv_history a1 rest) as [a2 log2]. simpl in *. subst log2.
    destruct Hev as [-> | ->].
    + by exists n.
    + by exists (S n).
Qed.

Lemma cycles_no_returning (n : nat) : RETURNING ∉ mjoin (replicate n task_cycle).
Proof.
  induction n as [|n IH]; simpl.
  - apply not_elem_of_nil.
  - unfold task_cycle at 1. simpl.
    rewrite !not_elem_of_cons. repeat split; try done.
Qed.

Lemma assign_task_idle a cid qty dest :
  is_idle a = true →
  assign_task a cid qty dest = set_current_task (mkAGVTask cid qty dest false) a.
Proof. intros Hidle. unfold assign_task, is_idle in *. by rewrite Hidle. Qed.

Lemma assign_task_not_idle a cid qty dest :
  is_idle a = false → assign_task a cid qty dest = a.
Proof. intros Hidle. unfold assign_task, is_idle in *. by rewrite Hidle. Qed.

(** C3: the AGV does not follow the cycle IDLE, TO_WAREHOUSE, PICKING,
    TO_STATION, DROPPING, RETURNING, IDLE.  Whatever calls reach an AGV and
    however often its loop runs, the states it enters are repetitions of
    TO_WAREHOUSE, PICKING, TO_STATION, DROPPING, IDLE: DROPPING is followed
    by IDLE and RETURNING is never entered.  In particular a fresh AGV that
    is started, given one task and runs its loop once enters exactly these
    five states, not the six of the cycle with RETURNING. *)
Theorem agv_cycle_skips_returning :
  (∀ (a : AGV) (evs : list AGVEvent),
     (∃ n : nat, (agv_history a evs).2 = mjoin (replicate n task_cycle)) ∧
     RETURNING ∉ (agv_history a evs).2)
  ∧ (agv_history (AGV_new 1)
       [EvStart; EvAssign "A" 2 "ASSEMBLY_STATION"; EvLoop]).2
    = [TO_WAREHOUSE; PICKING; TO_STATION; DROPPING; IDLE]
  ∧ (agv_history (AGV_new 1)
       [EvStart; EvAssign "A" 2 "ASSEMBLY_STATION"; EvLoop]).2
    ≠ [TO_WAREHOUSE; PICKING; TO_STATION; DROPPING; RETURNING; IDLE].
Proof.
  split; [|split; [reflexivity | discriminate]].
  intros a evs. destruct (agv_history_cycles a evs) as [n Hn].
  split; [by exists n|]. rewrite Hn. apply cycles_no_returning.
Qed.

(** C4: [assign_task] stores the given component id, quantity and
    destination (with the completion flag cleared) as the current task
    exactly when the AGV is in state IDLE with an empty task, which is
    when [is_idle] holds; it then changes nothing but the task.  In every
    other case the AGV is returned as it was. *)
Theorem assign_task_iff_idle (a : AGV) (cid : string) (qty : Z) (dest : string) :
  (is_idle a = true ↔ state a = IDLE ∧ component_id (current_task a) = "")
  ∧ (state a = IDLE ∧ component_id (current_task a) = "" →
       get_current_task (assign_task a cid qty dest) = mkAGVTask cid qty dest false
       ∧ get_state (assign_task a cid qty dest) = IDLE
       ∧ assign_task a cid qty dest = set_current_task (mkAGVTask cid qty dest false) a)
  ∧ (¬ (state a = IDLE ∧ component_id (current_task a) = "") →
       assign_task a cid qty dest = a).
Proof.
  split; [apply is_idle_true|]. split.
  - intros Hidle. pose proof Hidle as [Hstate _]. apply is_idle_true in Hidle.
    rewrite (assign_task_idle a cid qty dest Hidle).
    unfold get_current_task, get_state. simpl. by rewrite Hstate.
  - intros Hn. apply assign_task_not_idle.
    destruct (is_idle a) eqn:E; [|done].
    exfalso. apply Hn. by apply is_idle_true.
Qed.

(** C7: what the completion of a task cycle does.  A running AGV that
    holds a task executes it in one pass of its loop: the total-operations
    counter grows by one, the busy time grows by the sum of the four
    configured durations (travel to warehouse, picking, travel to station,
    dropping), the task becomes the empty task and the state IDLE.  The
    pass enters no RETURNING state and there is no RETURNING duration to
    add: the busy time does not cover a RETURNING leg. *)
Theorem completed_cycle_accounting (a : AGV) :
  agv_running a = true →
  component_id (current_task a) ≠ "" →
  let '(outcome, a', entered) := run_iteration a in
  outcome = Completed
  ∧ total_operations a' = int_add (total_operations a) 1
  ∧ busy_time_minutes a' =
      int_add (busy_time_minutes a)
        (int_add (int_add (int_add (travel_time_warehouse_minutes a)
                                   (picking_time_minutes a))
                          (travel_time_station_minutes a))
                 (dropping_time_minutes a))
  ∧ current_task a' = AGVTask_new
  ∧ state a' = IDLE
  ∧ entered = [TO_WAREHOUSE; PICKING; TO_STATION; DROPPING; IDLE]
  ∧ RETURNING ∉ entered.
Proof.
  intros Hrun Htask.
  unfold run_iteration, mbind, Act_bind, get. rewrite Hrun.
  unfold task_empty. rewrite bool_decide_eq_false_2 by done.
  cbn [negb]. rewrite execute_task_unfold. cbn.
  repeat split; try done.
  apply (cycles_no_returning 1).
Qed.

(** The accounting of C7 on a fresh AGV with the default durations 2, 1, 3
    and 1: one operation, 7 minutes of busy time. *)
Lemma completed_cycle_accounting_witness :
  let a := set_running true (assign_task (AGV_new 1) "A" 2 "ASSEMBLY_STATION") in
  agv_running a = true ∧ component_id (current_task a) ≠ "" ∧
  total_operations (run_iteration a).1.2 = 1 ∧
  busy_time_minutes (run_iteration a).1.2 = 7 ∧
  (run_iteration a).2 = [TO_WAREHOUSE; PICKING; TO_STATION; DROPPING; IDLE].
Proof.
  intros a.
  assert (agv_running a = true) as Hrun by reflexivity.
  assert (component_id (current_task a) ≠ "") as Htask by (by vm_compute).
  pose proof (completed_cycle_accounting a Hrun Htask) as H.
  destruct (run_iteration a) as [[outcome a'] entered].
  destruct H as (_ & Hops & Hbusy & _ & _ & Hlog & _).
  split; [exact Hrun|]. split; [exact Htask|]. split; [exact Hops|].
  split; [exact Hbusy | exact Hlog].
Defined.

End AGVFacts.

(** ** AssemblyStation *)

Module StationFacts.

Import WarehouseFacts AGVFacts.

Lemma alter_as_insert {A} (f : A → A) (l : list A) j x :
  l !! j = Some x → alter f j l = <[j := f x]> l.
Proof.
  intros Hj. apply list_eq. intros k.
  destruct (decide (j = k)) as [<-|Hne].
  - rewrite list_lookup_alter_eq, Hj.
    rewrite list_lookup_insert_eq by (by eapply lookup_lt_Some). done.
  - by rewrite list_lookup_alter_ne, list_lookup_insert_ne.
Qed.

Lemma fleet_lookup_mod (fleet : list AGV) (x : nat) :
  fleet ≠ [] → is_Some (fleet !! (x `mod` length fleet)%nat).
Proof.
  intros Hne. apply lookup_lt_is_Some_2. apply Nat.mod_upper_bound.
  destruct fleet; [done|]. simpl. lia.
Qed.

(** The inner loop stops at the first idle AGV in scan order. *)
Lemma scan_idle_some fleet start : ∀ todo i r,
  scan_idle fleet start i todo = Some r →
  (i ≤ r < i + todo)%nat ∧
  (∃ a, fleet !! ((start + r) `mod` length fleet)%nat = Some a ∧ is_idle a = true) ∧
  ∀ i', (i ≤ i' < r)%nat →
    ∃ a', fleet !! ((start + i') `mod` length fleet)%nat = Some a'
          ∧ is_idle a' = false.
Proof.
  induction todo as [|todo IH]; intros i r H; simpl in H; [done|].
  destruct (fleet !! ((start + i) `mod` length fleet)%nat) as [a|] eqn:Ha; [|done].
  destruct (is_idle a) eqn:Hidle.
  - injection H as <-. split; [lia|]. split; [eauto|]. intros i' Hi'. lia.
  - apply IH in H as (Hr & Hfound & Hbefore).
    split; [lia|]. split; [done|]. intros i' Hi'.
    destruct (decide (i' = i)) as [->|Hne]; [eauto|]. apply Hbefore. lia.
Qed.

Lemma scan_idle_none fleet start :
  fleet ≠ [] → ∀ todo i,
  scan_idle fleet start i todo = None →
  ∀ i', (i ≤ i' < i + todo)%nat →
    ∃ a', fleet !! ((start + i') `mod` length fleet)%nat = Some a'
          ∧ is_idle a' = false.
Proof.
  intros Hne. induction todo as [|todo IH]; intros i H i' Hi'; [lia|].
  simpl in H.
  destruct (fleet_lookup_mod fleet (start + i) Hne) as [a Ha]. rewrite Ha in H.
  destruct (is_idle a) eqn:Hidle; [done|].
  destruct (decide (i' = i)) as [->|Hni]; [eauto|].
  apply (IH (S i)); [done|lia].
Qed.

(** A cyclic scan of [n] steps from any start visits every index below [n]. *)
Lemma cyclic_scan_covers (n start k : nat) :
  (k < n)%nat → ∃ i, (i < n)%nat ∧ ((start + i) `mod` n)%nat = k.
Proof.
  intros Hk. assert (n ≠ 0)%nat as Hn by lia.
  pose proof (Nat.mod_upper_bound start n Hn) as Hs.
  exists ((k + (n - start `mod` n)) `mod` n)%nat. split.
  - by apply Nat.mod_upper_bound.
  - rewrite Nat.Div0.add_mod_idemp_r.
    rewrite <- Nat.Div0.add_mod_idemp_l.
    replace (start `mod` n + (k + (n - start `mod` n)))%nat with (k + 1 * n)%nat by lia.
    rewrite Nat.Div0.mod_add. by apply Nat.mod_small.
Qed.

Lemma scan_idle_none_idle fleet start :
  fleet ≠ [] → scan_idle fleet start 0 (length fleet) = None → none_idle fleet.
Proof.
  intros Hne Hscan a Ha.
  apply list_elem_of_lookup in Ha as [k Hk].
  destruct (cyclic_scan_covers (length fleet) start k) as (i & Hi & Hmod).
  { by eapply lookup_lt_Some. }
  destruct (scan_idle_none fleet start Hne _ _ Hscan i) as (a' & Ha' & Hidle); [lia|].
  rewrite Hmod in Ha'. congruence.
Qed.

(** One pass of the outer loop either gives the task to the first idle
    AGV in scan order and moves [agv_index] one past it, or finds no idle
    AGV and changes nothing. *)
Lemma dispatch_component_cases fleet start c q :
  fleet ≠ [] →
  (∃ j a,
     first_idle_from fleet start j ∧ fleet !! j = Some a ∧
     dispatch_component fleet start (c, q) =
       (<[j := set_current_task (mkAGVTask c q "ASSEMBLY_STATION" false) a]> fleet,
        ((j + 1) `mod` length fleet)%nat,
        mkDispatch start (Some j) c q))
  ∨ (none_idle fleet ∧
     dispatch_component fleet start (c, q) =
       (fleet, start, mkDispatch start None c q)).
Proof.
  intros Hne. unfold dispatch_component.
  destruct (scan_idle fleet start 0 (length fleet)) as [i|] eqn:Hscan.
  - left. apply scan_idle_some in Hscan as (Hi & (a & Ha & Hidle) & Hbefore).
    exists ((start + i) `mod` length fleet)%nat, a.
    split; [|split; [done|]].
    + exists i. split; [lia|]. split; [done|]. split; [eauto|].
      intros i' Hi'. apply Hbefore. lia.
    + simpl. rewrite (alter_as_insert _ _ _ _ Ha).
      rewrite (assign_task_idle _ _ _ _ Hidle).
      by rewrite Nat.Div0.add_mod_idemp_l.
  - right. split; [|done]. by eapply scan_idle_none_idle.
Qed.

Lemma dispatch_all_round_robin items : ∀ fleet start fleet' ds,
  fleet ≠ [] →
  dispatch_all fleet start items = (fleet', ds) →
  round_robin fleet start items ds fleet'.
Proof.
  induction items as [|[c q] rest IH]; intros fleet start fleet' ds Hne Hrun.
  - simpl in Hrun. injection Hrun as <- <-. constructor.
  - simpl in Hrun.
    destruct (dispatch_component_cases fleet start c q Hne)
      as [(j & a & Hfirst & Ha & Hstep) | (Hnone & Hstep)];
      rewrite Hstep in Hrun.
    + destruct (dispatch_all _ _ rest) as [fleet2 ds2] eqn:Hrest.
      injection Hrun as <- <-.
      eapply rr_assign; [done|done|].
      apply IH; [|done].
      intros Hnil. apply (f_equal length) in Hnil.
      rewrite length_insert in Hnil. by destruct fleet.
    + destruct (dispatch_all _ _ rest) as [fleet2 ds2] eqn:Hrest.
      injection Hrun as <- <-.
      apply rr_none; [done|]. by apply IH.
Qed.

(** Along a round-robin dispatch the fleet keeps its size, the first scan
    starts where the dispatch was told to start, and every later scan
    starts one past the AGV chosen before it. *)
Lemma round_robin_starts fleet start items ds fleet' :
  round_robin fleet start items ds fleet' →
  length fleet' = length fleet ∧
  (∀ d, head ds = Some d → scan_start d = start) ∧
  each_starts_after (length fleet) ds.
Proof.
  induction 1 as [fleet start
                 | fleet start c q rest j a ds fleet' Hfirst Ha Hrr IH
                 | fleet start c q rest ds fleet' Hnone Hrr IH].
  - split; [done|]. split; [intros d [=]|done].
  - destruct IH as (Hlen & Hhead & Hchain). rewrite length_insert in Hlen, Hchain.
    split; [done|]. split; [by intros d [= <-]|].
    simpl. destruct ds as [|d' ds']; [done|]. split; [|done].
    unfold starts_after. simpl. by apply Hhead.
  - destruct IH as (Hlen & Hhead & Hchain).
    split; [done|]. split; [by intros d [= <-]|].
    simpl. destruct ds as [|d' ds']; [done|]. split; [|done].
    unfold starts_after. simpl. by apply Hhead.
Qed.

Lemma request_components_log_unknown st pid :
  (products st = None ∨ ∃ prods, products st = Some prods ∧ prods !! pid = None) →
  request_components_log st pid = (false, st, []).
Proof.
  unfold request_components_log.
  intros [-> | (prods & -> & ->)]; done.
Qed.

(** The only way [request_components] returns true. *)
Lemma request_components_log_true st pid st' ds :
  request_components_log st pid = (true, st', ds) →
  ∃ prods product fleet fleet',
    products st = Some prods ∧ prods !! pid = Some product ∧
    all_available (components (warehouse st)) (map_items (bom product)) = true ∧
    agv_fleet st = Some fleet ∧ fleet ≠ [] ∧
    dispatch_all fleet 0 (map_items (bom product)) = (fleet', ds) ∧
    st' = set_agv_fleet (Some fleet')
            (set_warehouse (reserve_components (warehouse st) (bom product)).2 st).
Proof.
  unfold request_components_log. intros H.
  destruct (products st) as [prods|] eqn:Hprods; [|done].
  destruct (prods !! pid) as [product|] eqn:Hpid; [|done].
  destruct (reserve_components (warehouse st) (bom product))
    as [reserved wh1] eqn:Hres.
  assert (wh1 = (reserve_components (warehouse st) (bom product)).2) as Hwh1
    by (by rewrite Hres).
  destruct reserved; simpl in H; [|done].
  assert (all_available (components (warehouse st)) (map_items (bom product)) = true)
    as Hav.
  { unfold reserve_components in Hres. by destruct (all_available _ _). }
  destruct (agv_fleet st) as [[|a fleet]|] eqn:Hfleet; simpl in H.
  - by destruct (reserve_components wh1 (bom product)).
  - destruct (dispatch_all (a :: fleet) 0 (map_items (bom product)))
      as [fleet' ds'] eqn:Hd.
    injection H as <- <-. subst wh1.
    exists prods, product, (a :: fleet), fleet'. by repeat split.
  - by destruct (reserve_components wh1 (bom product)).
Qed.

(** C8 as stated fails: the scan does not continue from the dispatch made
    for the previous order.  With three started AGVs, the order for "P1"
    is dispatched to AGV 0; AGV 0 executes the task and is idle again; the
    scan for the next order, "P2", finds all three AGVs idle, starts at
    index 0 again and chooses AGV 0; it does not start at index 1, one
    past the AGV chosen before. *)
Lemma second_order_scan_restarts :
  let first := request_components_log Scenario.station0 "P1" in
  let second := request_components_log (Scenario.agv_loop_pass 0 first.1.2) "P2" in
  first.2 = [mkDispatch 0 (Some 0%nat) "A" 1] ∧
  (λ fleet : list AGV, is_idle <$> fleet)
    <$> agv_fleet (Scenario.agv_loop_pass 0 first.1.2)
    = Some [true; true; true] ∧
  second.2 = [mkDispatch 0 (Some 0%nat) "B" 1] ∧
  ¬ each_starts_after 3 (first.2 ++ second.2).
Proof.
  cbv zeta. split; [by vm_compute|]. split; [by vm_compute|].
  split; [by vm_compute|].
  intros H. apply (bool_decide_pack _) in H. vm_compute in H. exact H.
Qed.

(** C8, amended: when [request_components] dispatches the transport
    tasks of an order, it serves the components of the bill of materials
    in key order by a round-robin scan of the fleet: the scan for the
    first component of every order starts at index 0, the scan for each
    later component of the same order starts one past the AGV chosen by
    the previous dispatch of that order, the first idle AGV met is given
    the task (component id, required quantity, destination
    "ASSEMBLY_STATION"), and a component for which no AGV is idle is given
    to nobody. *)
Theorem dispatch_round_robin_per_order
    (st : AssemblyStation) (pid : string) (st' : AssemblyStation) (ds : list Dispatch) :
  request_components_log st pid = (true, st', ds) →
  ∃ prods product fleet fleet',
    products st = Some prods ∧ prods !! pid = Some product ∧
    agv_fleet st = Some fleet ∧ agv_fleet st' = Some fleet' ∧
    round_robin fleet 0 (map_items (bom product)) ds fleet' ∧
    (∀ d, head ds = Some d → scan_start d = 0%nat) ∧
    each_starts_after (length fleet) ds.
Proof.
  intros H.
  apply request_components_log_true in H
    as (prods & product & fleet & fleet' & Hprods & Hpid & _ & Hfleet & Hne & Hd & ->).
  apply dispatch_all_round_robin in Hd; [|done].
  destruct (round_robin_starts _ _ _ _ _ Hd) as (_ & Hhead & Hchain).
  exists prods, product, fleet, fleet'. by repeat split.
Qed.

(** The amended C8 on an order for a product with two components and a
    fleet whose first AGV is busy: the tasks go to AGVs 1 and 2. *)
Lemma dispatch_round_robin_per_order_witness :
  let busy := assign_task (AGV_new 0) "Z" 1 "ASSEMBLY_STATION" in
  let st := set_products
              (Some {[ "P3" := mkProduct {[ "A" := 2; "B" := 1 ]} 15 ]})
              (AssemblyStation_new Scenario.stock (Some [busy; AGV_new 1; AGV_new 2])) in
  let r := request_components_log st "P3" in
  r.1.1 = true ∧
  r.2 = [mkDispatch 0 (Some 1%nat) "A" 2; mkDispatch 2 (Some 2%nat) "B" 1] ∧
  ∃ prods product fleet fleet',
    products st = Some prods ∧ prods !! "P3" = Some product ∧
    agv_fleet st = Some fleet ∧ agv_fleet r.1.2 = Some fleet' ∧
    round_robin fleet 0 (map_items (bom product)) r.2 fleet' ∧
    (∀ d, head r.2 = Some d → scan_start d = 0%nat) ∧
    each_starts_after (length fleet) r.2.
Proof.
  intros busy st r.
  split; [by vm_compute|]. split; [by vm_compute|].
  apply (dispatch_round_robin_per_order st "P3").
  by destruct r as [[ok st'] ds] eqn:Hr; vm_compute in Hr; injection Hr as <- <- <-.
Defined.

Lemma request_components_unknown st pid :
  (products st = None ∨ ∃ prods, products st = Some prods ∧ prods !! pid = None) →
  request_components st pid = (false, st).
Proof.
  intros H. unfold request_components.
  by rewrite (request_components_log_unknown st pid H).
Qed.

(** C6: an order whose product is not in the catalog, or that arrives
    while no catalog is set, is rejected.  [request_components] returns
    false; the pass of [process_orders] leaves the order as it was (not
    marked completed, no completion time) and the station as it was: the
    completed-order counter, the busy time, the finished products and the
    component inventory are unchanged.  Only the queue has lost the order. *)
Theorem unknown_product_rejected (st : AssemblyStation) (order : Order) :
  (products st = None ∨
   ∃ prods, products st = Some prods ∧ prods !! product_id order = None) →
  request_components st (product_id order) = (false, st)
  ∧ process_order st order = (order, st)
  ∧ (let '(order', st') := process_order st order in
     is_completed order' = is_completed order
     ∧ completion_time_minutes order' = completion_time_minutes order
     ∧ orders_completed st' = orders_completed st
     ∧ total_busy_time_minutes st' = total_busy_time_minutes st
     ∧ finished_products (warehouse st') = finished_products (warehouse st)
     ∧ components (warehouse st') = components (warehouse st))
  ∧ (∀ rest, order_queue st = order :: rest →
       process_next st = Some (order, set_order_queue rest st)).
Proof.
  intros H. pose proof (request_components_unknown st _ H) as Hreq.
  assert (process_order st order = (order, st)) as Hproc.
  { unfold process_order. by rewrite Hreq. }
  split; [done|]. split; [done|]. split.
  - by rewrite Hproc.
  - intros rest Hq. unfold process_next. rewrite Hq.
    unfold process_order.
    rewrite (request_components_unknown (set_order_queue rest st)); done.
Qed.

(** C6 on the example station: an order for "P9", which the catalog does
    not list. *)
Lemma unknown_product_rejected_witness :
  let st := add_order (Scenario.order_at 0 "P9") Scenario.station0 in
  (∃ prods, products st = Some prods ∧ prods !! "P9" = None) ∧
  process_next st = Some (Scenario.order_at 0 "P9", Scenario.station0).
Proof.
  intros st.
  assert (∃ prods, products st = Some prods ∧ prods !! "P9" = None) as Hunknown.
  { exists Scenario.catalog. split; [reflexivity | by vm_compute]. }
  split; [exact Hunknown|].
  destruct (unknown_product_rejected st (Scenario.order_at 0 "P9") (or_intror Hunknown))
    as (_ & _ & _ & Hnext).
  exact (Hnext [] eq_refl).
Defined.

Lemma process_order_completed st o o' st' :
  process_order st o = (o', st') →
  is_completed o = false → is_completed o' = true →
  (request_components st (product_id o)).1 = true ∧
  o' = set_completed
         (int_add (current_sim_time_minutes st)
                  (calculate_operation_time st (product_id o))) o.
Proof.
  unfold process_order. intros H Hbefore Hafter.
  destruct (request_components st (product_id o)) as [ok st1] eqn:Hreq.
  destruct ok.
  - split; [done|]. injection H as <- _.
    unfold request_components in Hreq.
    destruct (request_components_log st (product_id o)) as [[ok' st1'] ds] eqn:Hlog.
    simpl in Hreq. injection Hreq as -> ->.
    apply request_components_log_true in Hlog
      as (prods & product & fleet & fleet' & Hprods & Hpid & _ & _ & _ & _ & ->).
    done.
  - injection H as <- _. congruence.
Qed.

(** C5 as stated fails: the completion time is taken from the station's
    own clock, which nothing ties to the order's release time.  On a fresh
    station (clock 0, setup 5) an order for "P1" (base assembly time 20)
    released at minute 10 is completed with completion time 25, less than
    10 + 20 + 5. *)
Lemma completion_before_release_plus_operation :
  let order := Scenario.order_at 10 "P1" in
  let done_order := (process_order Scenario.station0 order).1 in
  is_completed done_order = true ∧
  completion_time_minutes done_order = 25 ∧
  ¬ (release_time_minutes order + 20 + 5 <= completion_time_minutes done_order).
Proof.
  cbv zeta. split; [by vm_compute|]. split; [by vm_compute|].
  assert (completion_time_minutes
            (process_order Scenario.station0 (Scenario.order_at 10 "P1")).1 = 25)
    as -> by (by vm_compute).
  simpl. lia.
Qed.

(** C5, amended: for every order that the station marks completed, the
    recorded completion time is the station's simulation time at that
    moment plus the product's base assembly time plus the station's setup
    time ([int] additions); it is therefore at least the order's release
    time plus base assembly time plus setup time whenever the station's
    simulation time is at least the release time and the two sums are
    within the range of [int]. *)
Theorem completion_time_from_station_clock
    (st : AssemblyStation) (o o' : Order) (st' : AssemblyStation) :
  process_order st o = (o', st') →
  is_completed o = false →
  is_completed o' = true →
  ∃ prods product,
    products st = Some prods ∧ prods !! product_id o = Some product ∧
    completion_time_minutes o' =
      int_add (current_sim_time_minutes st)
              (int_add (base_assembly_time_minutes product) (setup_time_minutes st)) ∧
    (release_time_minutes o <= current_sim_time_minutes st →
     in_range (base_assembly_time_minutes product + setup_time_minutes st) →
     in_range (current_sim_time_minutes st
               + (base_assembly_time_minutes product + setup_time_minutes st)) →
     release_time_minutes o + base_assembly_time_minutes product + setup_time_minutes st
       <= completion_time_minutes o').
Proof.
  intros Hproc Hbefore Hafter.
  destruct (process_order_completed _ _ _ _ Hproc Hbefore Hafter) as [Hok ->].
  unfold request_components in Hok.
  destruct (request_components_log st (product_id o)) as [[ok st1] ds] eqn:Hlog.
  simpl in Hok. subst ok.
  apply request_components_log_true in Hlog
    as (prods & product & _ & _ & Hprods & Hpid & _).
  exists prods, product. split; [done|]. split; [done|].
  unfold calculate_operation_time. rewrite Hprods, Hpid. simpl.
  split; [done|]. intros Hrel Hop Hsum.
  rewrite (int_add_exact _ _ Hop), (int_add_exact _ _ Hsum). lia.
Qed.

(** The amended C5 on the example station with its clock at minute 12 and
    an order released at minute 10: completed at minute 37. *)
Lemma completion_time_from_station_clock_witness :
  let st := set_simulation_time 12 Scenario.station0 in
  let o := Scenario.order_at 10 "P1" in
  let o' := (process_order st o).1 in
  is_completed o = false ∧ is_completed o' = true ∧
  completion_time_minutes o' = 37 ∧
  release_time_minutes o + 20 + 5 <= completion_time_minutes o'.
Proof.
  intros st o o'.
  assert (is_completed o = false) as Hbefore by reflexivity.
  assert (is_completed o' = true) as Hafter by (by vm_compute).
  destruct (completion_time_from_station_clock st o o' (process_order st o).2
              (surjective_pairing _) Hbefore Hafter)
    as (prods & product & Hprods & Hpid & Htime & Hbound).
  assert (product = mkProduct {[ "A" := 1 ]} 20) as ->.
  { injection Hprods as <-. vm_compute in Hpid. by injection Hpid as <-. }
  split; [exact Hbefore|]. split; [exact Hafter|]. split; [exact Htime|].
  apply Hbound; simpl; unfold in_range, int_min, int_max; lia.
Defined.

(** With no fleet, [request_components] answers a successful reservation
    with a second reservation. *)
Lemma request_components_no_fleet st pid prods product :
  products st = Some prods → prods !! pid = Some product →
  all_available (components (warehouse st)) (map_items (bom product)) = true →
  (agv_fleet st = None ∨ agv_fleet st = Some []) →
  request_components st pid =
    (false,
     set_warehouse
       (reserve_components (reserve_components (warehouse st) (bom product)).2
          (bom product)).2
       (set_warehouse (reserve_components (warehouse st) (bom product)).2 st)).
Proof.
  intros Hprods Hpid Hav Hfleet.
  unfold request_components, request_components_log. rewrite Hprods, Hpid.
  destruct (reserve_components (warehouse st) (bom product)) as [reserved w1] eqn:Hres.
  assert (reserved = true) as ->.
  { unfold reserve_components in Hres. rewrite Hav in Hres. by injection Hres as <- _. }
  simpl.
  destruct (reserve_components w1 (bom product)) as [again w2] eqn:Hres2.
  by destruct Hfleet as [-> | ->].
Qed.

(** C10: if the product is in the catalog and the warehouse can satisfy
    its bill of materials, but the fleet pointer is null or the fleet is
    empty, [request_components] returns false and the warehouse is left
    as two reservations in a row leave it: every component of the bill of
    materials has been deducted once, and a second time if what remained
    still satisfied the bill of materials.  Nothing is put back: a
    component requested in a positive quantity ends strictly below its
    quantity before the call.  Components outside the bill of materials
    are untouched. *)
Theorem failed_dispatch_deducts_without_restoring
    (st : AssemblyStation) (pid : string)
    (prods : gmap string Product) (product : Product) :
  products st = Some prods →
  prods !! pid = Some product →
  (has_components (warehouse st) (bom product)).1 = true →
  (agv_fleet st = None ∨ agv_fleet st = Some []) →
  let w1 := (reserve_components (warehouse st) (bom product)).2 in
  let '(ok, st') := request_components st pid in
  ok = false
  ∧ warehouse st' = (reserve_components w1 (bom product)).2
  ∧ (∀ k q, bom product !! k = Some q →
       ∃ have,
         components (warehouse st) !! k = Some have ∧ q <= have ∧
         components w1 !! k = Some (int_sub have q) ∧
         components (warehouse st') !! k =
           Some (if (has_components w1 (bom product)).1
                 then int_sub (int_sub have q) q
                 else int_sub have q) ∧
         (0 < q → have <= int_max →
          ∃ left, components (warehouse st') !! k = Some left ∧ left < have))
  ∧ (∀ k, bom product !! k = None →
       components (warehouse st') !! k = components (warehouse st) !! k).
Proof.
  intros Hprods Hpid Hhas Hfleet w1.
  unfold has_components in Hhas. simpl in Hhas.
  rewrite (request_components_no_fleet st pid prods product) by done.
  fold w1. split; [done|]. split; [done|].
  assert (∀ k, components w1 !! k =
               match bom product !! k with
               | Some q => Some (int_sub (default 0 (components (warehouse st) !! k)) q)
               | None => components (warehouse st) !! k
               end) as Hw1.
  { intros k. by apply reserve_components_lookup. }
  cbn [warehouse set_warehouse].
  unfold has_components. cbn [fst].
  destruct (all_available (components w1) (map_items (bom product))) eqn:Hav2.
  - split.
    + intros k q Hk.
      destruct (proj1 (available_in_map _ _) Hhas k q Hk) as (have & Hl & Hq).
      destruct (proj1 (available_in_map _ _) Hav2 k q Hk) as (have1 & Hl1 & Hq1).
      exists have. rewrite reserve_components_lookup, Hk by done.
      rewrite Hw1, Hk, Hl in Hl1. simpl in Hl1. injection Hl1 as <-.
      rewrite Hw1, Hk, Hl. simpl.
      repeat split; try done.
      intros Hpos Hmax. eexists. split; [done|].
      rewrite (int_sub_exact have q) in * by (apply in_range_between; lia).
      rewrite int_sub_exact by (apply in_range_between; lia). lia.
    + intros k Hk. rewrite reserve_components_lookup, Hk by done.
      by rewrite Hw1, Hk.
  - rewrite (reserve_components_false _ _ Hav2). simpl. split.
    + intros k q Hk.
      destruct (proj1 (available_in_map _ _) Hhas k q Hk) as (have & Hl & Hq).
      exists have. rewrite Hw1, Hk, Hl. simpl.
      repeat split; try done.
      intros Hpos Hmax. eexists. split; [done|].
      rewrite int_sub_exact by (apply in_range_between; lia). lia.
    + intros k Hk. by rewrite Hw1, Hk.
Qed.

(** C10 on the example warehouse (five "A", five "B") with a null fleet:
    the request for "P1" (one "A") fails and leaves three "A". *)
Lemma failed_dispatch_deducts_without_restoring_witness :
  let st := set_agv_fleet None Scenario.station0 in
  (has_components (warehouse st) {[ "A" := 1 ]}).1 = true ∧
  (request_components st "P1").1 = false ∧
  get_component_quantity (warehouse st) "A" = 5 ∧
  get_component_quantity (warehouse (request_components st "P1").2) "A" = 3 ∧
  ∃ left, components (warehouse (request_components st "P1").2) !! "A" = Some left
          ∧ left < 5.
Proof.
  intros st.
  assert ((has_components (warehouse st) {[ "A" := 1 ]}).1 = true) as Hhas
    by (by vm_compute).
  pose proof (failed_dispatch_deducts_without_restoring st "P1" Scenario.catalog
                (mkProduct {[ "A" := 1 ]} 20) eq_refl ltac:(by vm_compute) Hhas
                (or_introl eq_refl)) as H.
  cbv zeta in H.
  destruct (request_components st "P1") as [ok st'] eqn:Hreq.
  destruct H as (Hok & Hwh & Hbom & _).
  destruct (Hbom "A" 1 ltac:(by vm_compute)) as (have & Hl & _ & _ & Hfinal & Hless).
  assert (have = 5) as -> by (vm_compute in Hl; by injection Hl as <-).
  split; [exact Hhas|]. split; [exact Hok|]. split; [by vm_compute|].
  split.
  - simpl. unfold get_component_quantity. rewrite Hfinal. by vm_compute.
  - simpl. apply Hless; [lia | by vm_compute].
Defined.

End StationFacts.

(** * Part III: further properties of the code *)

(** ** Warehouse: reads, additions, and how reservations compose *)

Module WarehouseMore.

Import WarehouseFacts.

Lemma get_component_quantity_default w k :
  get_component_quantity w k = default 0 (components w !! k).
Proof. unfold get_component_quantity. by destruct (components w !! k). Qed.

Lemma get_finished_product_count_default w k :
  get_finished_product_count w k = default 0 (finished_products w !! k).
Proof. unfold get_finished_product_count. by destruct (finished_products w !! k). Qed.

Lemma map_items_empty {V} : map_items (∅ : gmap string V) = [].
Proof. unfold map_items. by rewrite map_to_list_empty. Qed.

(** X1: after [add_component(id, q)] the quantity read for [id] is the
    former one plus [q] (an [int] addition; a component not yet stocked
    counts as 0), the quantity of every other component is as before, and
    so is every finished-product count. *)
Theorem add_component_then_read (w : Warehouse) (id : string) (q : Z) :
  get_component_quantity (add_component w id q) id
    = int_add (get_component_quantity w id) q
  ∧ (∀ k, k ≠ id →
       get_component_quantity (add_component w id q) k = get_component_quantity w k)
  ∧ (∀ p, get_finished_product_count (add_component w id q) p
          = get_finished_product_count w p).
Proof.
  split; [|split].
  - rewrite !get_component_quantity_default. simpl. by rewrite lookup_insert_eq.
  - intros k Hk. rewrite !get_component_quantity_default. simpl.
    by rewrite lookup_insert_ne.
  - done.
Qed.

Lemma add_finished_product_count w p :
  get_finished_product_count (add_finished_product w p) p
    = int_add (get_finished_product_count w p) 1.
Proof. rewrite !get_finished_product_count_default. simpl. by rewrite lookup_insert_eq. Qed.

(** X2: [n] calls of [add_finished_product(p)] raise the count read for
    [p] by [n], as long as the count stays an [int]; the counts of the
    other products and all component quantities are untouched. *)
Theorem add_finished_product_counts (n : nat) (w : Warehouse) (p : string) :
  0 <= get_finished_product_count w p →
  get_finished_product_count w p + Z.of_nat n <= int_max →
  let w' := Nat.iter n (λ w, add_finished_product w p) w in
  get_finished_product_count w' p = get_finished_product_count w p + Z.of_nat n
  ∧ (∀ p', p' ≠ p → get_finished_product_count w' p' = get_finished_product_count w p')
  ∧ components w' = components w.
Proof.
  intros Hlo Hhi. induction n as [|n IH]; simpl.
  - split; [lia|done].
  - destruct IH as (Hp & Hother & Hcomp); [lia|].
    split; [|split].
    + rewrite add_finished_product_count, Hp.
      rewrite int_add_exact by (apply in_range_between; lia). lia.
    + intros p' Hp'. rewrite <- (Hother p' Hp').
      rewrite !get_finished_product_count_default. simpl.
      by rewrite lookup_insert_ne.
    + done.
Qed.

(** X2 on three completions of "P1" in an empty warehouse. *)
Lemma add_finished_product_counts_witness :
  get_finished_product_count
    (Nat.iter 3 (λ w, add_finished_product w "P1") Warehouse_new) "P1" = 3.
Proof.
  apply (add_finished_product_counts 3 Warehouse_new "P1").
  - by vm_compute.
  - by vm_compute.
Defined.

(** X3: [reserve_components] returns true exactly when every entry of the
    required map is in the inventory with at least the requested quantity,
    that is, exactly when [has_components] does; in particular the empty
    requirement is always granted and changes nothing. *)
Theorem reserve_components_succeeds_iff (w : Warehouse) (required : gmap string Z) :
  ((reserve_components w required).1 = true ↔
     ∀ k q, required !! k = Some q →
            ∃ have, components w !! k = Some have ∧ q <= have)
  ∧ (reserve_components w required).1 = (has_components w required).1
  ∧ reserve_components w ∅ = (true, w).
Proof.
  split; [|split].
  - rewrite <- available_in_map. unfold reserve_components.
    by destruct (all_available _ _).
  - unfold reserve_components, has_components. by destruct (all_available _ _).
  - unfold reserve_components. rewrite map_items_empty. simpl. by destruct w.
Qed.

(** X4: a reservation, granted or not, neither creates nor removes a
    component entry, and leaves the finished products alone. *)
Theorem reserve_components_keeps_entries (w : Warehouse) (required : gmap string Z) :
  dom (components (reserve_components w required).2) = dom (components w)
  ∧ finished_products (reserve_components w required).2 = finished_products w.
Proof.
  split; [|apply reserve_components_finished].
  destruct (all_available (components w) (map_items required)) eqn:Hav.
  - apply set_eq. intros k. rewrite !elem_of_dom.
    rewrite reserve_components_lookup by done.
    destruct (required !! k) as [q|] eqn:Hk; [|done].
    destruct (proj1 (available_in_map w required) Hav k q Hk) as (have & -> & _).
    simpl. split; eauto.
  - by rewrite reserve_components_false.
Qed.

(** X5: two reservations granted one after the other never hand out more
    than was there: for a component both ask for (in non-negative
    quantities), the two requested quantities together are at most the
    quantity before the first, and what is left is that quantity less
    both. *)
Theorem successive_reservations_within_stock
    (w w1 w2 : Warehouse) (r1 r2 : gmap string Z) (k : string) (q1 q2 : Z) :
  reserve_components w r1 = (true, w1) →
  reserve_components w1 r2 = (true, w2) →
  r1 !! k = Some q1 → r2 !! k = Some q2 →
  0 <= q1 → 0 <= q2 → get_component_quantity w k <= int_max →
  q1 + q2 <= get_component_quantity w k
  ∧ get_component_quantity w2 k = get_component_quantity w k - q1 - q2.
Proof.
  intros H1 H2 Hk1 Hk2 Hq1 Hq2 Hmax.
  assert (all_available (components w) (map_items r1) = true) as Hav1.
  { unfold reserve_components in H1. by destruct (all_available _ _). }
  assert (all_available (components w1) (map_items r2) = true) as Hav2.
  { unfold reserve_components in H2. by destruct (all_available _ _). }
  destruct (proj1 (available_in_map w r1) Hav1 k q1 Hk1) as (have & Hl & Hle1).
  destruct (proj1 (available_in_map w1 r2) Hav2 k q2 Hk2) as (have1 & Hl1 & Hle2).
  pose proof (reserve_components_lookup w r1 k Hav1) as Hw1.
  rewrite H1, Hk1, Hl in Hw1. simpl in Hw1. rewrite Hl1 in Hw1. injection Hw1 as ->.
  pose proof (reserve_components_lookup w1 r2 k Hav2) as Hw2.
  rewrite H2, Hk2, Hl1 in Hw2. simpl in Hw2.
  rewrite (get_component_quantity_lookup _ _ _ Hl) in *.
  rewrite (get_component_quantity_lookup _ _ _ Hw2).
  rewrite (int_sub_exact have q1) in * by (apply in_range_between; lia).
  split; [lia|].
  rewrite int_sub_exact; [lia|]. unfold in_range, int_min, int_max in *. lia.
Qed.

(** X5 on five units of "A", of which first two and then three are
    reserved. *)
Lemma successive_reservations_within_stock_witness :
  let w := add_component Warehouse_new "A" 5 in
  let w1 := (reserve_components w {[ "A" := 2 ]}).2 in
  let w2 := (reserve_components w1 {[ "A" := 3 ]}).2 in
  2 + 3 <= get_component_quantity w "A"
  ∧ get_component_quantity w2 "A" = get_component_quantity w "A" - 2 - 3.
Proof.
  intros w w1 w2.
  apply (successive_reservations_within_stock w w1 w2
           {[ "A" := 2 ]} {[ "A" := 3 ]} "A" 2 3);
    by vm_compute.
Defined.

(** X6: stocking [q] units of a component and reserving them right away
    is granted and leaves every quantity read from the warehouse as it was
    before the two calls. *)
Theorem add_then_reserve_restores (w : Warehouse) (k : string) (q : Z) :
  0 <= q →
  0 <= get_component_quantity w k →
  get_component_quantity w k + q <= int_max →
  let r := reserve_components (add_component w k q) {[ k := q ]} in
  r.1 = true
  ∧ (∀ k', get_component_quantity r.2 k' = get_component_quantity w k')
  ∧ (∀ p, get_finished_product_count r.2 p = get_finished_product_count w p).
Proof.
  intros Hq Hlo Hhi r.
  assert (components (add_component w k q) !! k
          = Some (get_component_quantity w k + q)) as Hadd.
  { simpl. rewrite lookup_insert_eq, <- get_component_quantity_default.
    by rewrite int_add_exact by (apply in_range_between; lia). }
  assert (all_available (components (add_component w k q))
            (map_items ({[ k := q ]} : gmap string Z)) = true) as Hav.
  { apply available_in_map. intros k0 q0 [-> ->]%lookup_singleton_Some.
    eexists. split; [exact Hadd|lia]. }
  split; [|split].
  - subst r. unfold reserve_components. by rewrite Hav.
  - intros k'. subst r. rewrite !get_component_quantity_default.
    rewrite reserve_components_lookup by done.
    destruct (decide (k' = k)) as [->|Hne].
    + rewrite lookup_singleton_eq, Hadd. simpl.
      rewrite int_sub_exact by (apply in_range_between; lia).
      rewrite <- get_component_quantity_default. f_equal. lia.
    + rewrite lookup_singleton_ne by done. simpl. by rewrite lookup_insert_ne.
  - intros p. subst r. rewrite !get_finished_product_count_default.
    by rewrite reserve_components_finished.
Qed.

(** X6 on a warehouse that did not stock the component before. *)
Lemma add_then_reserve_restores_witness :
  let r := reserve_components (add_component Scenario.stock "C" 4) {[ "C" := 4 ]} in
  r.1 = true
  ∧ (∀ k', get_component_quantity r.2 k' = get_component_quantity Scenario.stock k')
  ∧ (∀ p, get_finished_product_count r.2 p
          = get_finished_product_count Scenario.stock p).
Proof.
  apply (add_then_reserve_restores Scenario.stock "C" 4); by vm_compute.
Defined.

End WarehouseMore.

(** ** AGV: counters, starting and stopping, repeated assignments *)

Module AGVMore.

Import AGVFacts.

Lemma wrap_wrap_add x y : wrap (wrap x + y) = wrap (x + y).
Proof.
  unfold wrap.
  replace ((x + 2 ^ 31) `mod` 2 ^ 32 - 2 ^ 31 + y + 2 ^ 31)
    with ((x + 2 ^ 31) `mod` 2 ^ 32 + y) by lia.
  rewrite Zplus_mod_idemp_l. f_equal. f_equal. lia.
Qed.

Lemma same_configuration_refl a : same_configuration a a.
Proof. by repeat split. Qed.

Lemma same_configuration_trans a b c :
  same_configuration a b → same_configuration b c → same_configuration a c.
Proof.
  unfold same_configuration. intros (?&?&?&?&?) (?&?&?&?&?).
  repeat split; congruence.
Qed.

Lemma same_configuration_cycle_duration a a' :
  same_configuration a a' → cycle_duration a' = cycle_duration a.
Proof. unfold cycle_duration. intros (?&?&?&?&?). congruence. Qed.

Lemma assign_task_counters a cid qty dest :
  same_configuration a (assign_task a cid qty dest)
  ∧ total_operations (assign_task a cid qty dest) = total_operations a
  ∧ busy_time_minutes (assign_task a cid qty dest) = busy_time_minutes a
  ∧ agv_running (assign_task a cid qty dest) = agv_running a
  ∧ state (assign_task a cid qty dest) = state a.
Proof.
  unfold assign_task. destruct (_ && _); simpl; by repeat split.
Qed.

(** What one event does to the counters of an AGV. *)
Lemma agv_event_effect a ev :
  same_configuration a (agv_event a ev).1
  ∧ ((agv_event a ev).2 = []
     ∧ total_operations (agv_event a ev).1 = total_operations a
     ∧ busy_time_minutes (agv_event a ev).1 = busy_time_minutes a
     ∨ (agv_event a ev).2 = task_cycle
     ∧ total_operations (agv_event a ev).1 = int_add (total_operations a) 1
     ∧ busy_time_minutes (agv_event a ev).1
       = int_add (busy_time_minutes a) (cycle_duration a)).
Proof.
  destruct ev as [cid qty dest| | |]; simpl.
  - pose proof (assign_task_counters a cid qty dest) as (?&?&?&?&?).
    split; [done|]. by left.
  - split; [by repeat split|]. by left.
  - split; [by repeat split|]. by left.
  - unfold run_iteration, mbind, Act_bind, get.
    destruct (agv_running a); [|split; [by repeat split|by left]].
    destruct (task_empty (current_task a)); [split; [by repeat split|by left]|].
    cbn [negb]. rewrite execute_task_unfold. cbn.
    split; [by repeat split|]. by right.
Qed.

(** X7: the counters of an AGV follow its completed tasks.  After any
    sequence of calls and loop passes, in which the AGV executed [n]
    tasks, [total_operations] has grown by [n] and [busy_time_minutes] by
    [n] times the sum of the four configured durations (as [int]s, that
    is modulo 2^32), and the id and the four durations are the ones the
    AGV started with. *)
Theorem agv_counters_follow_cycles (evs : list AGVEvent) :
  ∀ a : AGV,
    in_range (total_operations a) →
    in_range (busy_time_minutes a) →
    ∃ n : nat,
      (agv_history a evs).2 = mjoin (replicate n task_cycle)
      ∧ total_operations (agv_history a evs).1
        = wrap (total_operations a + Z.of_nat n)
      ∧ busy_time_minutes (agv_history a evs).1
        = wrap (busy_time_minutes a + Z.of_nat n * cycle_duration a)
      ∧ same_configuration a (agv_history a evs).1.
Proof.
  induction evs as [|ev rest IH]; intros a Hops Hbusy; simpl.
  - exists 0%nat. simpl. rewrite !Z.add_0_r, !wrap_in_range by done.
    repeat split; done.
  - pose proof (agv_event_effect a ev) as [Hcfg Hev].
    destruct (agv_event a ev) as [a1 log1]. simpl in Hcfg, Hev.
    destruct Hev as [(-> & Hops1 & Hbusy1) | (-> & Hops1 & Hbusy1)].
    + destruct (IH a1) as (n & Hlog & Hn & Hb & Hcfg1).
      { by rewrite Hops1. } { by rewrite Hbusy1. }
      destruct (agv_history a1 rest) as [a2 log2]. simpl in *.
      exists n. rewrite Hn, Hb, Hops1, Hbusy1.
      rewrite (same_configuration_cycle_duration _ _ Hcfg).
      split; [done|]. split; [done|]. split; [done|].
      by eapply same_configuration_trans.
    + destruct (IH a1) as (n & Hlog & Hn & Hb & Hcfg1).
      { rewrite Hops1. apply wrap_range. } { rewrite Hbusy1. apply wrap_range. }
      destruct (agv_history a1 rest) as [a2 log2]. simpl in *.
      exists (S n). rewrite Hn, Hb, Hops1, Hbusy1, Hlog.
      rewrite (same_configuration_cycle_duration _ _ Hcfg).
      unfold int_add. rewrite !wrap_wrap_add.
      split; [done|]. split; [f_equal; lia|]. split; [f_equal; lia|].
      by eapply same_configuration_trans.
Qed.

(** X7 on a fresh AGV that is given two tasks in a row: two operations and
    14 minutes of busy time. *)
Lemma agv_counters_follow_cycles_witness :
  let evs := [EvStart; EvAssign "A" 2 "ASSEMBLY_STATION"; EvLoop;
              EvAssign "B" 1 "ASSEMBLY_STATION"; EvLoop; EvLoop] in
  total_operations (agv_history (AGV_new 4) evs).1 = 2
  ∧ busy_time_minutes (agv_history (AGV_new 4) evs).1 = 14
  ∧ ∃ n : nat,
      (agv_history (AGV_new 4) evs).2 = mjoin (replicate n task_cycle)
      ∧ total_operations (agv_history (AGV_new 4) evs).1 = wrap (0 + Z.of_nat n)
      ∧ busy_time_minutes (agv_history (AGV_new 4) evs).1
        = wrap (0 + Z.of_nat n * cycle_duration (AGV_new 4))
      ∧ same_configuration (AGV_new 4) (agv_history (AGV_new 4) evs).1.
Proof.
  intros evs. split; [reflexivity|]. split; [reflexivity|].
  apply (agv_counters_follow_cycles evs (AGV_new 4)); by vm_compute.
Defined.

Lemma run_iteration_not_running a :
  agv_running a = false → run_iteration a = (Stopped, a, []).
Proof.
  intros Hrun. unfold run_iteration, mbind, Act_bind, get. by rewrite Hrun.
Qed.

Lemma run_iteration_waiting a :
  agv_running a = true → component_id (current_task a) = "" →
  run_iteration a = (Waiting, a, []).
Proof.
  intros Hrun Hempty. unfold run_iteration, mbind, Act_bind, get, task_empty.
  rewrite Hrun, Hempty. done.
Qed.



(** X9: an AGV takes no second task.  Once [assign_task] was called with
    a non-empty component id the AGV is not idle, whatever it was before,
    and a further [assign_task] changes nothing: the task stored first is
    kept. *)
Theorem assign_task_keeps_first_task
    (a : AGV) (c1 : string) (q1 : Z) (d1 : string)
    (c2 : string) (q2 : Z) (d2 : string) :
  c1 ≠ "" →
  is_idle (assign_task a c1 q1 d1) = false
  ∧ assign_task (assign_task a c1 q1 d1) c2 q2 d2 = assign_task a c1 q1 d1.
Proof.
  intros Hc1.
  assert (is_idle (assign_task a c1 q1 d1) = false) as Hbusy.
  { destruct (is_idle a) eqn:Hidle.
    - rewrite assign_task_idle by done.
      unfold is_idle, task_empty. simpl.
      rewrite (bool_decide_eq_false_2 (c1 = "")) by done. apply andb_false_r.
    - by rewrite assign_task_not_idle. }
  split; [done|]. by apply assign_task_not_idle.
Qed.

(** X9 on a fresh AGV: the task for "A" is kept, the one for "B" dropped. *)
Lemma assign_task_keeps_first_task_witness :
  get_current_task
    (assign_task (assign_task (AGV_new 3) "A" 2 "ASSEMBLY_STATION")
                 "B" 7 "ASSEMBLY_STATION")
  = mkAGVTask "A" 2 "ASSEMBLY_STATION" false.
Proof.
  assert ("A" ≠ "") as Hne by done.
  destruct (assign_task_keeps_first_task (AGV_new 3) "A" 2 "ASSEMBLY_STATION"
              "B" 7 "ASSEMBLY_STATION" Hne) as [_ ->].
  reflexivity.
Defined.

(** X10: a task with an empty component id is no task.  On an idle AGV
    [assign_task("", q, d)] stores the quantity and the destination, but
    the AGV still answers [is_idle()] with true, a pass of its loop
    executes nothing, and the next [assign_task] overwrites what was
    stored as if the call had not been made. *)
Theorem assign_task_empty_id_is_ignored
    (a : AGV) (q : Z) (d : string) (c' : string) (q' : Z) (d' : string) :
  is_idle a = true →
  is_idle (assign_task a "" q d) = true
  ∧ (run_iteration (assign_task a "" q d)).2 = []
  ∧ (run_iteration (assign_task a "" q d)).1.2 = assign_task a "" q d
  ∧ assign_task (assign_task a "" q d) c' q' d' = assign_task a c' q' d'.
Proof.
  intros Hidle. pose proof Hidle as [Hstate Hempty]%is_idle_true.
  assert (is_idle (assign_task a "" q d) = true) as Hidle'.
  { rewrite assign_task_idle by done. apply is_idle_true. by split. }
  split; [done|].
  rewrite (assign_task_idle (assign_task a "" q d)) by done.
  rewrite !assign_task_idle by done.
  destruct (agv_running a) eqn:Hrun.
  - rewrite run_iteration_waiting by done. by repeat split.
  - rewrite run_iteration_not_running by done. by repeat split.
Qed.

(** X10 on a fresh AGV. *)
Lemma assign_task_empty_id_is_ignored_witness :
  is_idle (assign_task (AGV_new 5) "" 9 "ASSEMBLY_STATION") = true
  ∧ quantity (current_task (assign_task (AGV_new 5) "" 9 "ASSEMBLY_STATION")) = 9.
Proof.
  split; [|reflexivity].
  apply (assign_task_empty_id_is_ignored (AGV_new 5) 9 "ASSEMBLY_STATION"
           "A" 1 "ASSEMBLY_STATION" eq_refl).
Defined.

Lemma agv_history_idle_loops a (n : nat) :
  agv_running a = true → is_idle a = true →
  agv_history a (replicate n EvLoop) = (a, []).
Proof.
  intros Hrun [_ Hempty]%is_idle_true. induction n as [|n IH]; simpl; [done|].
  rewrite run_iteration_waiting by done. by rewrite IH.
Qed.

Lemma agv_history_cons a ev rest :
  agv_history a (ev :: rest)
  = ((agv_history (agv_event a ev).1 rest).1,
     (agv_event a ev).2 ++ (agv_history (agv_event a ev).1 rest).2).
Proof.
  simpl. destruct (agv_event a ev) as [a1 log1]. simpl.
  by destruct (agv_history a1 rest).
Qed.

Lemma run_iteration_executes a :
  agv_running a = true → component_id (current_task a) ≠ "" →
  run_iteration a = (Completed, (execute_task a).1.2, task_cycle).
Proof.
  intros Hrun Htask. unfold run_iteration, mbind, Act_bind, get, task_empty.
  rewrite Hrun, bool_decide_eq_false_2 by done.
  cbn [negb]. by rewrite execute_task_unfold.
Qed.

(** X11: a task given to a started, idle AGV is executed exactly once.
    However many passes of its loop follow the assignment (at least one),
    the AGV goes through TO_WAREHOUSE, PICKING, TO_STATION, DROPPING, IDLE
    once, counts one operation more, and is idle again. *)
Theorem assigned_task_executed_once
    (a : AGV) (c : string) (q : Z) (d : string) (n : nat) :
  agv_running a = true →
  is_idle a = true →
  c ≠ "" →
  let r := agv_history a (EvAssign c q d :: replicate (S n) EvLoop) in
  r.2 = task_cycle
  ∧ is_idle r.1 = true
  ∧ total_operations r.1 = int_add (total_operations a) 1
  ∧ busy_time_minutes r.1 = int_add (busy_time_minutes a) (cycle_duration a).
Proof.
  intros Hrun Hidle Hc r. subst r.
  rewrite agv_history_cons. cbn [agv_event fst snd].
  rewrite assign_task_idle by done.
  set (a1 := set_current_task (mkAGVTask c q d false) a).
  change (replicate (S n) EvLoop) with (EvLoop :: replicate n EvLoop).
  rewrite agv_history_cons. cbn [agv_event].
  rewrite (run_iteration_executes a1) by done. cbn [fst snd].
  rewrite execute_task_unfold. cbn [fst snd].
  rewrite agv_history_idle_loops; [|done|by apply is_idle_true].
  cbn. by repeat split.
Qed.

(** X11 on a started fresh AGV followed by three loop passes. *)
Lemma assigned_task_executed_once_witness :
  let a := set_running true (AGV_new 6) in
  let r := agv_history a (EvAssign "A" 2 "ASSEMBLY_STATION" :: replicate 3 EvLoop) in
  r.2 = task_cycle ∧ is_idle r.1 = true
  ∧ total_operations r.1 = int_add (total_operations a) 1
  ∧ busy_time_minutes r.1 = int_add (busy_time_minutes a) (cycle_duration a).
Proof.
  intros a.
  apply (assigned_task_executed_once a "A" 2 "ASSEMBLY_STATION" 2 eq_refl eq_refl).
  done.
Defined.

End AGVMore.

(** ** AssemblyStation: accepted and rejected orders, dispatch, the queue *)

Module StationMore.

Import WarehouseFacts AGVFacts StationFacts.

Lemma set_warehouse_same st : set_warehouse (warehouse st) st = st.
Proof. by destruct st. Qed.

Lemma set_agv_fleet_same st fleet :
  agv_fleet st = Some fleet → set_agv_fleet (Some fleet) st = st.
Proof. destruct st. simpl. by intros ->. Qed.

(** The way [request_components] returns true, read forwards. *)
Lemma request_components_log_granted st pid prods product fleet :
  products st = Some prods → prods !! pid = Some product →
  all_available (components (warehouse st)) (map_items (bom product)) = true →
  agv_fleet st = Some fleet → fleet ≠ [] →
  request_components_log st pid =
    (true,
     set_agv_fleet (Some (dispatch_all fleet 0 (map_items (bom product))).1)
       (set_warehouse (reserve_components (warehouse st) (bom product)).2 st),
     (dispatch_all fleet 0 (map_items (bom product))).2).
Proof.
  intros Hprods Hpid Hav Hfleet Hne.
  unfold request_components_log. rewrite Hprods, Hpid.
  unfold reserve_components. rewrite Hav. cbn [negb agv_fleet set_warehouse].
  rewrite Hfleet. destruct fleet as [|a fleet]; [done|].
  by destruct (dispatch_all (a :: fleet) 0 (map_items (bom product))).
Qed.

(** With a known product and a short stock, [request_components] returns
    false and the station is as before. *)
Lemma request_components_log_short st pid prods product :
  products st = Some prods → prods !! pid = Some product →
  all_available (components (warehouse st)) (map_items (bom product)) = false →
  request_components_log st pid = (false, st, []).
Proof.
  intros Hprods Hpid Hav.
  unfold request_components_log. rewrite Hprods, Hpid.
  rewrite (reserve_components_false _ _ Hav). cbn [negb].
  by rewrite set_warehouse_same.
Qed.

(** What [request_components] never changes, whatever it returns. *)
Lemma request_components_log_frame st pid st' :
  st' = (request_components_log st pid).1.2 →
  products st' = products st
  ∧ order_queue st' = order_queue st
  ∧ running st' = running st
  ∧ current_sim_time_minutes st' = current_sim_time_minutes st
  ∧ setup_time_minutes st' = setup_time_minutes st
  ∧ total_busy_time_minutes st' = total_busy_time_minutes st
  ∧ orders_completed st' = orders_completed st
  ∧ finished_products (warehouse st') = finished_products (warehouse st).
Proof.
  intros ->. unfold request_components_log.
  destruct (products st) as [prods|] eqn:Hprods; [|by rewrite <- Hprods].
  destruct (prods !! pid) as [product|]; [|by rewrite <- Hprods].
  pose proof (reserve_components_finished (warehouse st) (bom product)) as Hfin1.
  destruct (reserve_components (warehouse st) (bom product)) as [[|] w1];
    cbn [negb snd] in *; [|by rewrite <- Hprods].
  pose proof (reserve_components_finished w1 (bom product)) as Hfin2.
  cbn [agv_fleet warehouse set_warehouse].
  destruct (agv_fleet st) as [[|a fleet]|].
  - destruct (reserve_components w1 (bom product)) as [again w2].
    simpl in *. rewrite <- Hprods. repeat split; congruence.
  - destruct (dispatch_all (a :: fleet) 0 (map_items (bom product))).
    simpl. by rewrite <- Hprods.
  - destruct (reserve_components w1 (bom product)) as [again w2].
    simpl in *. rewrite <- Hprods. repeat split; congruence.
Qed.

(** X12: the books of a completed order.  For a known product whose bill
    of materials is in stock, with a non-empty fleet, the pass of
    [process_orders] marks the order completed, counts one order more,
    adds the product's base time plus the setup time (never the fallback
    of 30 minutes) to the busy time, adds one finished product of that
    id, and leaves in the inventory what the single reservation of the
    bill of materials leaves.  The rest of the order and the catalog,
    clock, setup time and queue of the station are untouched. *)
Theorem completed_order_books
    (st : AssemblyStation) (o : Order)
    (prods : gmap string Product) (product : Product) (fleet : list AGV) :
  products st = Some prods →
  prods !! product_id o = Some product →
  (has_components (warehouse st) (bom product)).1 = true →
  agv_fleet st = Some fleet → fleet ≠ [] →
  let '(o', st') := process_order st o in
  is_completed o' = true
  ∧ (product_id o', release_time_minutes o', priority o', due_date_minutes o')
    = (product_id o, release_time_minutes o, priority o, due_date_minutes o)
  ∧ get_orders_completed st' = int_add (get_orders_completed st) 1
  ∧ get_total_busy_time st'
    = int_add (get_total_busy_time st)
        (int_add (base_assembly_time_minutes product) (setup_time_minutes st))
  ∧ get_finished_product_count (warehouse st') (product_id o)
    = int_add (get_finished_product_count (warehouse st) (product_id o)) 1
  ∧ components (warehouse st')
    = components (reserve_components (warehouse st) (bom product)).2
  ∧ (products st', current_sim_time_minutes st', setup_time_minutes st', order_queue st')
    = (products st, current_sim_time_minutes st, setup_time_minutes st, order_queue st).
Proof.
  intros Hprods Hpid Hhas Hfleet Hne.
  unfold has_components in Hhas. simpl in Hhas.
  unfold process_order, request_components.
  rewrite (request_components_log_granted st _ prods product fleet) by done.
  cbn [fst snd]. unfold calculate_operation_time. cbn.
  rewrite Hprods, Hpid.
  unfold get_orders_completed, get_total_busy_time, get_finished_product_count. cbn.
  rewrite lookup_insert_eq, reserve_components_finished.
  by repeat split.
Qed.

(** X12 on the example station: one order for "P1". *)
Lemma completed_order_books_witness :
  let r := process_order Scenario.station0 (Scenario.order_at 0 "P1") in
  is_completed r.1 = true
  ∧ get_orders_completed r.2 = 1
  ∧ get_total_busy_time r.2 = 25
  ∧ get_finished_product_count (warehouse r.2) "P1" = 1
  ∧ get_component_quantity (warehouse r.2) "A" = 4.
Proof.
  intros r.
  pose proof (completed_order_books Scenario.station0 (Scenario.order_at 0 "P1")
                Scenario.catalog (mkProduct {[ "A" := 1 ]} 20) Scenario.fleet3
                eq_refl ltac:(by vm_compute) ltac:(by vm_compute) eq_refl
                ltac:(done)) as H.
  fold r in H. destruct r as [o' st'].
  destruct H as (Hdone & _ & Hcount & Hbusy & Hfin & Hcomp & _).
  split; [exact Hdone|]. split; [exact Hcount|]. split; [exact Hbusy|].
  split; [exact Hfin|].
  unfold get_component_quantity. cbn [snd]. rewrite Hcomp. by vm_compute.
Defined.

(** X13: an order for a known product whose bill of materials is not in
    stock is dropped: the pass of [process_orders] leaves the order
    uncompleted and the whole station (inventory, fleet, counters) exactly
    as it was; the order is not put back in the queue. *)
Theorem short_stock_order_dropped
    (st : AssemblyStation) (o : Order) (rest : list Order)
    (prods : gmap string Product) (product : Product) :
  products st = Some prods →
  prods !! product_id o = Some product →
  (has_components (warehouse st) (bom product)).1 = false →
  process_order st o = (o, st)
  ∧ (order_queue st = o :: rest →
     process_next st = Some (o, set_order_queue rest st)).
Proof.
  intros Hprods Hpid Hhas. unfold has_components in Hhas. simpl in Hhas.
  split.
  - unfold process_order, request_components.
    by rewrite (request_components_log_short st _ prods product).
  - intros Hq. unfold process_next. rewrite Hq.
    unfold process_order, request_components.
    by rewrite (request_components_log_short _ _ prods product).
Qed.

(** X13 on the example station: "P4" needs nine "A", five are in stock. *)
Lemma short_stock_order_dropped_witness :
  let st := set_products (Some {[ "P4" := mkProduct {[ "A" := 9 ]} 12 ]})
              Scenario.station0 in
  process_order st (Scenario.order_at 0 "P4") = (Scenario.order_at 0 "P4", st).
Proof.
  intros st.
  apply (short_stock_order_dropped st (Scenario.order_at 0 "P4") []
           {[ "P4" := mkProduct {[ "A" := 9 ]} 12 ]} (mkProduct {[ "A" := 9 ]} 12));
    by vm_compute.
Defined.

(** *** Dispatch *)

Lemma idle_count_cons a fleet :
  idle_count (a :: fleet)
  = ((if is_idle a then 1 else 0) + idle_count fleet)%nat.
Proof.
  unfold idle_count. rewrite filter_cons.
  destruct (decide (is_idle a = true)) as [->|Hn]; [done|].
  by destruct (is_idle a).
Qed.

Lemma none_idle_count fleet : none_idle fleet → idle_count fleet = 0%nat.
Proof.
  induction fleet as [|a fleet IH]; intros Hnone; [done|].
  rewrite idle_count_cons, (Hnone a) by left.
  rewrite IH; [done|]. intros b Hb. apply Hnone. by right.
Qed.

Lemma idle_count_insert_busy fleet : ∀ (j : nat) a b,
  fleet !! j = Some a → is_idle a = true → is_idle b = false →
  idle_count fleet = S (idle_count (<[j := b]> fleet)).
Proof.
  induction fleet as [|x fleet IH]; intros j a b Hj Ha Hb; [done|].
  destruct j as [|j]; simpl in *.
  - injection Hj as ->. by rewrite !idle_count_cons, Ha, Hb.
  - rewrite !idle_count_cons, (IH j a b) by done. lia.
Qed.

Lemma task_not_idle c q d a : c ≠ "" → is_idle (set_current_task (mkAGVTask c q d false) a) = false.
Proof.
  intros Hc. unfold is_idle, task_empty. simpl.
  rewrite (bool_decide_eq_false_2 (c = "")) by done. apply andb_false_r.
Qed.

(** A dispatch leaves the AGVs that are not idle as they are. *)
Lemma round_robin_busy_untouched fleet start items ds fleet' :
  round_robin fleet start items ds fleet' →
  ∀ (j : nat) a, fleet !! j = Some a → is_idle a = false → fleet' !! j = Some a.
Proof.
  induction 1 as [fleet start
                 | fleet start c q rest j0 a0 ds fleet' Hfirst Ha0 Hrr IH
                 | fleet start c q rest ds fleet' Hnone Hrr IH];
    intros j a Hj Hbusy; [done| |by apply IH].
  destruct Hfirst as (_ & _ & _ & (a0' & Ha0' & Hidle) & _).
  assert (j ≠ j0) as Hne by (intros ->; congruence).
  apply IH; [|done]. by rewrite list_lookup_insert_ne.
Qed.

Lemma round_robin_payload fleet start items ds fleet' :
  round_robin fleet start items ds fleet' →
  (λ d, (dispatched_component d, dispatched_quantity d)) <$> ds = items.
Proof. induction 1; simpl; [done| |]; by f_equal. Qed.

(** With no idle AGV a dispatch assigns nothing. *)
Lemma round_robin_none_idle fleet start items ds fleet' :
  round_robin fleet start items ds fleet' →
  none_idle fleet →
  fleet' = fleet ∧ Forall (λ d, chosen d = None) ds.
Proof.
  induction 1 as [fleet start
                 | fleet start c q rest j0 a0 ds fleet' Hfirst Ha0 Hrr IH
                 | fleet start c q rest ds fleet' Hnone Hrr IH];
    intros Hn.
  - by split.
  - destruct Hfirst as (_ & _ & _ & (a0' & Ha0' & Hidle) & _).
    rewrite (Hn a0') in Hidle; [done|]. by eapply list_elem_of_lookup_2.
  - destruct (IH Hn) as [-> Hall]. split; [done|]. by constructor.
Qed.

(** With at least as many idle AGVs as components, each component goes to
    an AGV of its own. *)
Lemma round_robin_enough_idle fleet start items ds fleet' :
  round_robin fleet start items ds fleet' →
  Forall (λ p, p.1 ≠ "") items →
  (length items ≤ idle_count fleet)%nat →
  (∃ js : list nat, chosen <$> ds = Some <$> js ∧ NoDup js)
  ∧ (idle_count fleet' + length items = idle_count fleet)%nat
  ∧ ∀ d (j : nat), d ∈ ds → chosen d = Some j →
      ∃ a0, fleet !! j = Some a0 ∧ is_idle a0 = true ∧
            fleet' !! j =
              Some (set_current_task
                      (mkAGVTask (dispatched_component d) (dispatched_quantity d)
                         "ASSEMBLY_STATION" false) a0).
Proof.
  induction 1 as [fleet start
                 | fleet start c q rest j0 a0 ds fleet' Hfirst Ha0 Hrr IH
                 | fleet start c q rest ds fleet' Hnone Hrr IH];
    intros Hkeys Hcount.
  - split; [exists []; split; [done|constructor]|]. split; [simpl; lia|].
    intros d j Hd. by apply elem_of_nil in Hd.
  - apply Forall_cons in Hkeys as [Hc Hkeys]. simpl in Hc, Hcount.
    destruct Hfirst as (_ & _ & _ & (a0' & Ha0' & Hidle) & _).
    assert (a0' = a0) as -> by congruence.
    set (busy := set_current_task (mkAGVTask c q "ASSEMBLY_STATION" false) a0) in *.
    assert (is_idle busy = false) as Hbusy by (by apply task_not_idle).
    pose proof (idle_count_insert_busy fleet j0 a0 busy Ha0 Hidle Hbusy) as Hdec.
    assert (<[j0:=busy]> fleet !! j0 = Some busy) as Hj0.
    { apply list_lookup_insert_eq. by eapply lookup_lt_Some. }
    destruct IH as ((js & Hjs & Hnd) & Hleft & Htasks); [done|lia|].
    assert (∀ d (j : nat), d ∈ ds → chosen d = Some j → j ≠ j0) as Hfresh.
    { intros d j Hd Hch ->.
      destruct (Htasks d j0 Hd Hch) as (a1 & Ha1 & Hidle1 & _). congruence. }
    split; [|split].
    + exists (j0 :: js). split; [by rewrite !fmap_cons, Hjs|].
      constructor; [|done]. intros Hin.
      assert (Some j0 ∈ chosen <$> ds) as Hin'.
      { rewrite Hjs. apply list_elem_of_fmap. by exists j0. }
      apply list_elem_of_fmap in Hin' as (d & Hch & Hd).
      by apply (Hfresh d j0 Hd).
    + simpl. lia.
    + intros d j [->|Hd]%elem_of_cons Hch.
      * simpl in Hch. injection Hch as <-. exists a0. simpl.
        split; [done|]. split; [done|].
        by apply (round_robin_busy_untouched _ _ _ _ _ Hrr).
      * destruct (Htasks d j Hd Hch) as (a1 & Ha1 & Hidle1 & Hfinal).
        exists a1. rewrite list_lookup_insert_ne in Ha1 by (symmetry; by eapply Hfresh).
        done.
  - rewrite (none_idle_count _ Hnone) in Hcount. simpl in Hcount. lia.
Qed.

Lemma dispatch_all_as_round_robin fleet items :
  fleet ≠ [] →
  round_robin fleet 0 items (dispatch_all fleet 0 items).2 (dispatch_all fleet 0 items).1.
Proof.
  intros Hne. apply dispatch_all_round_robin; [done|].
  by destruct (dispatch_all fleet 0 items).
Qed.

Lemma request_components_log_refused_fleet st pid :
  (request_components_log st pid).1.1 = false →
  agv_fleet (request_components_log st pid).1.2 = agv_fleet st.
Proof.
  unfold request_components_log.
  destruct (products st) as [prods|]; [|done].
  destruct (prods !! pid) as [product|]; [|done].
  destruct (reserve_components (warehouse st) (bom product)) as [[|] w1];
    cbn [negb]; [|done].
  cbn [agv_fleet warehouse set_warehouse].
  destruct (agv_fleet st) as [[|a fleet]|] eqn:Hfleet.
  - by destruct (reserve_components w1 (bom product)).
  - by destruct (dispatch_all (a :: fleet) 0 (map_items (bom product))).
  - by destruct (reserve_components w1 (bom product)).
Qed.

Lemma length_map_items {V} (m : gmap string V) : length (map_items m) = size m.
Proof. rewrite map_items_perm. apply length_map_to_list. Qed.

(** X14: when every AGV of the fleet is busy, an order that is in stock
    is accepted all the same.  [request_components] reserves the bill of
    materials, assigns no task at all, leaves the fleet as it is and
    returns true, and the pass of [process_orders] marks the order
    completed although nothing was transported. *)
Theorem order_completed_without_transport
    (st : AssemblyStation) (o : Order)
    (prods : gmap string Product) (product : Product) (fleet : list AGV) :
  products st = Some prods →
  prods !! product_id o = Some product →
  (has_components (warehouse st) (bom product)).1 = true →
  agv_fleet st = Some fleet → fleet ≠ [] →
  none_idle fleet →
  let r := request_components_log st (product_id o) in
  r.1.1 = true
  ∧ length r.2 = size (bom product)
  ∧ Forall (λ d, chosen d = None) r.2
  ∧ agv_fleet r.1.2 = Some fleet
  ∧ is_completed (process_order st o).1 = true.
Proof.
  intros Hprods Hpid Hhas Hfleet Hne Hnone r.
  unfold has_components in Hhas. simpl in Hhas.
  pose proof (request_components_log_granted st _ prods product fleet
                Hprods Hpid Hhas Hfleet Hne) as Hr.
  pose proof (dispatch_all_as_round_robin fleet (map_items (bom product)) Hne) as Hrr.
  destruct (dispatch_all fleet 0 (map_items (bom product))) as [fleet' ds].
  cbn [fst snd] in *.
  destruct (round_robin_none_idle _ _ _ _ _ Hrr Hnone) as [Hsame Hall].
  pose proof (round_robin_payload _ _ _ _ _ Hrr) as Hpay.
  subst r. unfold process_order, request_components. rewrite Hr. cbn [fst snd].
  split; [done|]. split.
  { rewrite <- length_map_items, <- Hpay. by rewrite length_fmap. }
  split; [done|]. split.
  { simpl. by rewrite Hsame. }
  reflexivity.
Qed.

(** X14 on the example station with its three AGVs busy. *)
Lemma order_completed_without_transport_witness :
  let busy := λ i, assign_task (AGV_new i) "Z" 1 "ASSEMBLY_STATION" in
  let st := set_agv_fleet (Some [busy 0; busy 1; busy 2]) Scenario.station0 in
  let r := request_components_log st "P1" in
  r.1.1 = true
  ∧ r.2 = [mkDispatch 0 None "A" 1]
  ∧ is_completed (process_order st (Scenario.order_at 0 "P1")).1 = true.
Proof.
  intros busy st r.
  assert (none_idle [busy 0; busy 1; busy 2]) as Hnone.
  { intros a Ha. repeat (apply elem_of_cons in Ha as [->|Ha]; [reflexivity|]).
    by apply elem_of_nil in Ha. }
  destruct (order_completed_without_transport st (Scenario.order_at 0 "P1")
              Scenario.catalog (mkProduct {[ "A" := 1 ]} 20) [busy 0; busy 1; busy 2]
              eq_refl ltac:(by vm_compute) ltac:(by vm_compute) eq_refl
              ltac:(done) Hnone) as (Hok & _ & _ & _ & Hdone).
  split; [exact Hok|]. split; [by vm_compute | exact Hdone].
Defined.

(** X15: [request_components] never touches an AGV that is not idle and
    never changes the size of the fleet, whether it returns true or
    false. *)
Theorem busy_agvs_left_alone
    (st : AssemblyStation) (pid : string) (fleet : list AGV) :
  agv_fleet st = Some fleet →
  ∃ fleet',
    agv_fleet (request_components_log st pid).1.2 = Some fleet'
    ∧ length fleet' = length fleet
    ∧ ∀ (j : nat) a, fleet !! j = Some a → is_idle a = false → fleet' !! j = Some a.
Proof.
  intros Hfleet.
  destruct (request_components_log st pid) as [[ok st'] ds] eqn:Hr.
  destruct ok.
  - apply request_components_log_true in Hr
      as (prods & product & fleet0 & fleet' & _ & _ & _ & Hfleet0 & Hne & Hd & ->).
    assert (fleet0 = fleet) as -> by congruence.
    apply dispatch_all_round_robin in Hd; [|done].
    exists fleet'. split; [done|]. split.
    + by destruct (round_robin_starts _ _ _ _ _ Hd) as (Hlen & _).
    + by apply (round_robin_busy_untouched _ _ _ _ _ Hd).
  - pose proof (request_components_log_refused_fleet st pid) as Hsame.
    rewrite Hr in Hsame. simpl in *. exists fleet.
    rewrite Hsame by done. by repeat split.
Qed.

(** X15 on a fleet whose first AGV carries a task: the task is still
    there after a dispatch. *)
Lemma busy_agvs_left_alone_witness :
  let busy := assign_task (AGV_new 0) "Z" 1 "ASSEMBLY_STATION" in
  let st := set_agv_fleet (Some [busy; AGV_new 1]) Scenario.station0 in
  ∃ fleet',
    agv_fleet (request_components_log st "P1").1.2 = Some fleet'
    ∧ length fleet' = 2%nat
    ∧ ∀ (j : nat) a, [busy; AGV_new 1] !! j = Some a → is_idle a = false →
                     fleet' !! j = Some a.
Proof.
  intros busy st.
  apply (busy_agvs_left_alone st "P1" [busy; AGV_new 1] eq_refl).
Defined.

(** X16: with at least as many idle AGVs as the bill of materials has
    components (none of them named by the empty string), every component
    is dispatched, each to an AGV of its own that was idle: the chosen
    AGVs are pairwise distinct, each holds afterwards the task (component
    id, required quantity, "ASSEMBLY_STATION"), and the number of idle
    AGVs has dropped by the number of components. *)
Theorem every_component_gets_its_own_agv
    (st : AssemblyStation) (pid : string)
    (prods : gmap string Product) (product : Product) (fleet : list AGV) :
  products st = Some prods →
  prods !! pid = Some product →
  (has_components (warehouse st) (bom product)).1 = true →
  agv_fleet st = Some fleet → fleet ≠ [] →
  bom product !! "" = None →
  (size (bom product) ≤ idle_count fleet)%nat →
  let r := request_components_log st pid in
  r.1.1 = true
  ∧ ∃ fleet' (js : list nat),
      agv_fleet r.1.2 = Some fleet'
      ∧ chosen <$> r.2 = Some <$> js
      ∧ NoDup js
      ∧ length js = size (bom product)
      ∧ (idle_count fleet' + size (bom product) = idle_count fleet)%nat
      ∧ ∀ k q, bom product !! k = Some q →
          ∃ (j : nat) a0,
            j ∈ js ∧ fleet !! j = Some a0 ∧ is_idle a0 = true ∧
            fleet' !! j =
              Some (set_current_task (mkAGVTask k q "ASSEMBLY_STATION" false) a0).
Proof.
  intros Hprods Hpid Hhas Hfleet Hne Hkey Hcount r.
  unfold has_components in Hhas. simpl in Hhas.
  pose proof (request_components_log_granted st _ prods product fleet
                Hprods Hpid Hhas Hfleet Hne) as Hr.
  pose proof (dispatch_all_as_round_robin fleet (map_items (bom product)) Hne) as Hrr.
  destruct (dispatch_all fleet 0 (map_items (bom product))) as [fleet' ds].
  cbn [fst snd] in *.
  pose proof (round_robin_payload _ _ _ _ _ Hrr) as Hpay.
  destruct (round_robin_enough_idle _ _ _ _ _ Hrr)
    as ((js & Hjs & Hnd) & Hleft & Htasks).
  { apply Forall_forall. intros [k q] Hin Hk. simpl in Hk. subst k.
    apply elem_of_map_items in Hin. congruence. }
  { by rewrite length_map_items. }
  subst r. rewrite Hr. cbn [fst snd].
  split; [done|].
  exists fleet', js.
  rewrite length_map_items in Hleft.
  split; [done|]. split; [done|]. split; [done|]. split.
  { rewrite <- length_map_items, <- Hpay, length_fmap.
    rewrite <- (length_fmap Some js), <- Hjs. by rewrite length_fmap. }
  split; [done|].
  intros k q Hk. apply elem_of_map_items in Hk. rewrite <- Hpay in Hk.
  apply list_elem_of_fmap in Hk as (d & Hd & Hin). injection Hd as -> ->.
  assert (chosen d ∈ chosen <$> ds) as Hch by (apply list_elem_of_fmap; by exists d).
  rewrite Hjs in Hch. apply list_elem_of_fmap in Hch as (j & Hch & Hj).
  destruct (Htasks d j Hin Hch) as (a0 & Ha0 & Hidle & Hfinal).
  by exists j, a0.
Qed.

(** X16 on the fleet of three idle AGVs and a product of two components. *)
Lemma every_component_gets_its_own_agv_witness :
  let st := set_products
              (Some {[ "P3" := mkProduct {[ "A" := 2; "B" := 1 ]} 15 ]})
              Scenario.station0 in
  let r := request_components_log st "P3" in
  r.1.1 = true
  ∧ chosen <$> r.2 = [Some 0%nat; Some 1%nat]
  ∧ ∃ fleet' (js : list nat),
      agv_fleet r.1.2 = Some fleet'
      ∧ chosen <$> r.2 = Some <$> js
      ∧ NoDup js
      ∧ length js = 2%nat
      ∧ (idle_count fleet' + 2 = 3)%nat
      ∧ ∀ k q, ({[ "A" := 2; "B" := 1 ]} : gmap string Z) !! k = Some q →
          ∃ (j : nat) a0,
            j ∈ js ∧ Scenario.fleet3 !! j = Some a0 ∧ is_idle a0 = true ∧
            fleet' !! j =
              Some (set_current_task (mkAGVTask k q "ASSEMBLY_STATION" false) a0).
Proof.
  intros st r.
  pose proof (every_component_gets_its_own_agv st "P3"
                {[ "P3" := mkProduct {[ "A" := 2; "B" := 1 ]} 15 ]}
                (mkProduct {[ "A" := 2; "B" := 1 ]} 15) Scenario.fleet3
                eq_refl ltac:(by vm_compute) ltac:(by vm_compute) eq_refl
                ltac:(done) ltac:(by vm_compute) ltac:(vm_compute; lia)) as [Hok H].
  split; [exact Hok|]. split; [by vm_compute|]. exact H.
Defined.

(** *** The order queue *)

(** One pass either leaves the order and the counter alone or marks the
    order completed and counts it; it never touches the queue or the
    [running] flag, nor what identifies the order. *)
Lemma process_order_cases st o :
  order_queue (process_order st o).2 = order_queue st
  ∧ running (process_order st o).2 = running st
  ∧ product_id (process_order st o).1 = product_id o
  ∧ release_time_minutes (process_order st o).1 = release_time_minutes o
  ∧ ((process_order st o).1 = o
     ∧ orders_completed (process_order st o).2 = orders_completed st
     ∨ is_completed (process_order st o).1 = true
     ∧ orders_completed (process_order st o).2 = int_add (orders_completed st) 1).
Proof.
  unfold process_order, request_components.
  pose proof (request_components_log_frame st (product_id o) _ eq_refl)
    as (_ & Hq & Hrun & _ & _ & _ & Hcount & _).
  destruct (request_components_log st (product_id o)) as [[ok st1] ds].
  cbn [fst snd] in *. destruct ok; cbn.
  - repeat split; try done. right. by rewrite Hcount.
  - repeat split; try done. by left.
Qed.

Lemma process_orders_stopped fuel st :
  running st = false → process_orders fuel st = ([], st).
Proof. intros Hrun. destruct fuel; simpl; [done|]. by rewrite Hrun. Qed.

(** X17: the station serves its queue first in, first out.  A running
    station given enough passes for the orders queued takes them from the
    front one by one, in the order [add_order] put them in, until the
    queue is empty ([is_processing] then answers false); whether an order
    is completed or dropped does not change the order of service.  A
    station that is not running takes no order from its queue. *)
Theorem queue_served_in_arrival_order (fuel : nat) :
  ∀ st : AssemblyStation,
    (length (order_queue st) ≤ fuel)%nat →
    (running st = true →
       product_id <$> (process_orders fuel st).1 = product_id <$> order_queue st
       ∧ release_time_minutes <$> (process_orders fuel st).1
         = release_time_minutes <$> order_queue st
       ∧ order_queue (process_orders fuel st).2 = []
       ∧ is_processing (process_orders fuel st).2 = false)
    ∧ (running st = false → process_orders fuel st = ([], st)).
Proof.
  induction fuel as [|fuel IH]; intros st Hlen.
  - split; [|by intros; apply process_orders_stopped].
    intros _. simpl. destruct (order_queue st) eqn:Hq; [|simpl in Hlen; lia].
    unfold is_processing. by rewrite Hq.
  - split; [|by intros; apply process_orders_stopped].
    intros Hrun. simpl. rewrite Hrun. cbn [negb]. unfold process_next.
    destruct (order_queue st) as [|o rest] eqn:Hq.
    { simpl. unfold is_processing. by rewrite Hq. }
    pose proof (process_order_cases (set_order_queue rest st) o)
      as (Hq1 & Hrun1 & Hpid & Hrel & _).
    destruct (process_order (set_order_queue rest st) o) as [o' st1].
    cbn [fst snd] in *. simpl in Hq1, Hrun1, Hlen.
    destruct (IH st1) as [Hserved _]; [rewrite Hq1; lia|].
    destruct (Hserved ltac:(congruence)) as (Hpids & Hrels & Hempty & Hproc).
    destruct (process_orders fuel st1) as [os st2]. cbn [fst snd] in *.
    rewrite !fmap_cons, Hpids, Hrels, Hq1, Hpid, Hrel. done.
Qed.

(** X17 on the example station with three orders, the second of which is
    for an unknown product. *)
Lemma queue_served_in_arrival_order_witness :
  let st := station_start
              (add_order (Scenario.order_at 2 "P1")
                 (add_order (Scenario.order_at 1 "P9")
                    (add_order (Scenario.order_at 0 "P2") Scenario.station0))) in
  product_id <$> (process_orders 3 st).1 = ["P2"; "P9"; "P1"]
  ∧ is_completed <$> (process_orders 3 st).1 = [true; false; true]
  ∧ order_queue (process_orders 3 st).2 = []
  ∧ is_processing (process_orders 3 st).2 = false.
Proof.
  intros st.
  destruct (queue_served_in_arrival_order 3 st) as [Hserved _]; [simpl; lia|].
  destruct (Hserved eq_refl) as (Hpids & _ & Hempty & Hproc).
  split; [exact Hpids|]. split; [by vm_compute|]. split; [exact Hempty|exact Hproc].
Defined.

(** X18: the completed-order counter counts the orders marked completed.
    After any number of passes of [process_orders] over a queue of orders
    not yet completed, [get_orders_completed] has grown by the number of
    orders the passes marked completed (as an [int], that is modulo
    2^32). *)
Theorem orders_completed_counts_completions (fuel : nat) :
  ∀ st : AssemblyStation,
    in_range (orders_completed st) →
    Forall (λ o, is_completed o = false) (order_queue st) →
    get_orders_completed (process_orders fuel st).2
    = wrap (get_orders_completed st
            + Z.of_nat (length (filter (λ o, is_completed o = true)
                                  (process_orders fuel st).1))).
Proof.
  unfold get_orders_completed.
  induction fuel as [|fuel IH]; intros st Hrange Hqueue; simpl.
  { by rewrite Z.add_0_r, wrap_in_range. }
  destruct (running st); cbn [negb]; [|by rewrite Z.add_0_r, wrap_in_range].
  unfold process_next.
  destruct (order_queue st) as [|o rest] eqn:Hq;
    [by simpl; rewrite Z.add_0_r, wrap_in_range|].
  apply Forall_cons in Hqueue as [Ho Hrest].
  pose proof (process_order_cases (set_order_queue rest st) o)
    as (Hq1 & _ & _ & _ & Hcase).
  destruct (process_order (set_order_queue rest st) o) as [o' st1].
  cbn [fst snd] in *. simpl in Hq1, Hcase.
  destruct Hcase as [[-> Hcount] | [Hdone Hcount]].
  - specialize (IH st1). rewrite Hcount, Hq1 in IH. specialize (IH Hrange Hrest).
    destruct (process_orders fuel st1) as [os st2]. cbn [fst snd] in *.
    rewrite filter_cons_False by congruence. done.
  - specialize (IH st1). rewrite Hcount, Hq1 in IH.
    specialize (IH (wrap_range _) Hrest).
    destruct (process_orders fuel st1) as [os st2]. cbn [fst snd] in *.
    rewrite filter_cons_True by done. rewrite IH. unfold int_add.
    rewrite AGVMore.wrap_wrap_add. f_equal. simpl length. lia.
Qed.

(** X18 on the queue of X17: two of the three orders are completed. *)
Lemma orders_completed_counts_completions_witness :
  let st := station_start
              (add_order (Scenario.order_at 2 "P1")
                 (add_order (Scenario.order_at 1 "P9")
                    (add_order (Scenario.order_at 0 "P2") Scenario.station0))) in
  get_orders_completed (process_orders 3 st).2 = 2.
Proof.
  intros st.
  rewrite (orders_completed_counts_completions 3 st).
  - by vm_compute.
  - by vm_compute.
  - repeat constructor.
Defined.

(** *** The inventory under the station *)

Lemma reserve_components_within w required :
  non_negative w → within_int w →
  map_Forall (λ _ q, 0 <= q) required →
  non_negative (reserve_components w required).2
  ∧ within_int (reserve_components w required).2.
Proof.
  intros Hnn Hmax Hreq.
  assert (∀ k, get_component_quantity w k <= int_max) as Hget.
  { intros k. unfold get_component_quantity.
    destruct (components w !! k) as [v|] eqn:Hk; [by apply (Hmax k)|done]. }
  split.
  - apply reserve_components_non_negative; [done|].
    intros k q Hk. simpl. specialize (Hreq k q Hk). simpl in Hreq.
    specialize (Hget k). lia.
  - destruct (all_available (components w) (map_items required)) eqn:Hav;
      [|by rewrite reserve_components_false].
    intros k v Hv. rewrite reserve_components_lookup in Hv by done.
    destruct (required !! k) as [q|] eqn:Hk; [|by apply (Hmax k)].
    destruct (proj1 (available_in_map w required) Hav k q Hk) as (have & Hl & Hq).
    rewrite Hl in Hv. simpl in Hv. injection Hv as <-.
    pose proof (Hreq k q Hk) as Hq0. pose proof (Hmax k have Hl) as Hhave.
    simpl in Hq0, Hhave.
    rewrite int_sub_exact by (apply in_range_between; lia). lia.
Qed.

(** The inventory [request_components] leaves is the one it found, or
    that after one reservation of the bill of materials, or after two. *)
Lemma request_components_log_warehouse st pid :
  warehouse (request_components_log st pid).1.2 = warehouse st
  ∨ ∃ prods product,
      products st = Some prods ∧ prods !! pid = Some product ∧
      (warehouse (request_components_log st pid).1.2
         = (reserve_components (warehouse st) (bom product)).2
       ∨ warehouse (request_components_log st pid).1.2
         = (reserve_components
              (reserve_components (warehouse st) (bom product)).2 (bom product)).2).
Proof.
  unfold request_components_log.
  destruct (products st) as [prods|] eqn:Hprods; [|by left].
  destruct (prods !! pid) as [product|] eqn:Hpid; [|by left].
  right. exists prods, product. split; [done|]. split; [done|].
  destruct (reserve_components (warehouse st) (bom product)) as [[|] w1];
    cbn [negb snd]; [|by left].
  cbn [agv_fleet warehouse set_warehouse].
  destruct (agv_fleet st) as [[|a fleet]|].
  - right. by destruct (reserve_components w1 (bom product)).
  - left. by destruct (dispatch_all (a :: fleet) 0 (map_items (bom product))).
  - right. by destruct (reserve_components w1 (bom product)).
Qed.

(** X19: the station keeps the inventory non-negative.  If no quantity in
    the warehouse is negative or above [INT_MAX], the bill of materials of
    the ordered product asks for no negative quantity, and the count of
    that finished product is below [INT_MAX], then after the pass of
    [process_orders] for the order no component quantity and no
    finished-product count is negative, whatever the outcome: completed,
    dropped, or refused for lack of a fleet after the double deduction. *)
Theorem station_keeps_inventory_non_negative (st : AssemblyStation) (o : Order) :
  non_negative (warehouse st) →
  within_int (warehouse st) →
  (∀ prods product,
     products st = Some prods → prods !! product_id o = Some product →
     map_Forall (λ _ q, 0 <= q) (bom product)) →
  get_finished_product_count (warehouse st) (product_id o) < int_max →
  non_negative (warehouse (process_order st o).2)
  ∧ within_int (warehouse (process_order st o).2).
Proof.
  intros Hnn Hmax Hbom Hfin.
  assert (non_negative (warehouse (request_components_log st (product_id o)).1.2)
          ∧ within_int (warehouse (request_components_log st (product_id o)).1.2))
    as [Hnn1 Hmax1].
  { destruct (request_components_log_warehouse st (product_id o))
      as [-> | (prods & product & Hprods & Hpid & [-> | ->])]; [done| |].
    - apply reserve_components_within; eauto.
    - destruct (reserve_components_within (warehouse st) (bom product))
        as [Hnn1 Hmax1]; eauto.
      apply reserve_components_within; eauto. }
  pose proof (request_components_log_frame st (product_id o) _ eq_refl)
    as (_ & _ & _ & _ & _ & _ & _ & Hfin1).
  unfold process_order, request_components.
  destruct (request_components_log st (product_id o)) as [[ok st1] ds].
  cbn [fst snd] in *. destruct ok; cbn [snd]; [|done].
  cbn [warehouse set_warehouse set_orders_completed set_total_busy_time_minutes].
  split.
  - apply add_finished_product_non_negative; [done|]. simpl.
    unfold get_finished_product_count in *. rewrite Hfin1. lia.
  - done.
Qed.

(** X19 on the example station without a fleet, where the order for "P1"
    is refused after two deductions. *)
Lemma station_keeps_inventory_non_negative_witness :
  let st := set_agv_fleet None Scenario.station0 in
  let o := Scenario.order_at 0 "P1" in
  get_component_quantity (warehouse (process_order st o).2) "A" = 3
  ∧ non_negative (warehouse (process_order st o).2)
  ∧ within_int (warehouse (process_order st o).2).
Proof.
  intros st o. split; [by vm_compute|].
  apply (station_keeps_inventory_non_negative st o).
  - apply (bool_decide_unpack _). by vm_compute.
  - apply (bool_decide_unpack _). by vm_compute.
  - intros prods product [= <-] Hpid. vm_compute in Hpid.
    injection Hpid as <-. apply (bool_decide_unpack _). by vm_compute.
  - by vm_compute.
Defined.

End StationMore.
